(** * Campaign detection and attribution of the threat dashboard

    A shallow embedding of [server.py]: the [CampaignDetector] class
    (feature extraction, clustering, attribution, campaign registry), the
    bounded attack history and the [/api/campaigns] route, followed by the
    properties of the design document that can be settled on it.

    Conventions.
    - Python [float] values are modelled by exact rationals ([Q]); every
      constant of the source is a short decimal, so the comparisons of the
      source are decided exactly.
    - Python [int] values are [Z]; [len] of a list is [Z.of_nat (length _)].
    - A [dict] used as a registry is a [gmap]; a [dict] whose iteration
      order is observed is an association list in insertion order.
    - A raised exception is the constructor [Raise] of [Res]. *)

From Stdlib Require Import QArith Qround Qminmax ZArith String Ascii List Lia.
From Stdlib Require Import Decimal DecimalString DecimalN.
From stdpp Require Import gmap strings list sorting.

Local Open Scope string_scope.
Local Open Scope list_scope.

(** ** Python values *)

Inductive PyError : Type :=
  | ValueError      (* malformed argument, e.g. a bad ISO string *)
  | TypeError       (* naive and aware datetimes compared *)
  | IndexError      (* list index out of range *)
  | OutOfFuel.      (* the fuel of the clustering loop ran out *)

Inductive Res (A : Type) : Type :=
  | Ok (a : A)
  | Raise (e : PyError).
Arguments Ok {A} a.
Arguments Raise {A} e.

#[global] Instance Res_ret : MRet Res := fun A a => Ok a.
#[global] Instance Res_bind : MBind Res := fun A B k r =>
  match r with
  | Ok a => k a
  | Raise e => Raise e
  end.

Definition len {A : Type} (l : list A) : Z := Z.of_nat (length l).

(** Comparisons of floats. *)
Definition Qlt_bool (x y : Q) : bool := negb (Qle_bool y x).
Infix "<=?" := Qle_bool : Q_scope.
Infix "<?" := Qlt_bool : Q_scope.

(** [round(x)] to the nearest integer, ties to the even one. *)
Definition round_half_even (x : Q) : Z :=
  let f := Qfloor x in
  match (x - inject_Z f ?= 1 # 2)%Q with
  | Lt => f
  | Gt => (f + 1)%Z
  | Eq => if Z.even f then f else (f + 1)%Z
  end.

(** [round(x, ndigits)] *)
Definition py_round (x : Q) (ndigits : nat) : Q :=
  let scale := inject_Z (10 ^ Z.of_nat ndigits) in
  (inject_Z (round_half_even (x * scale)) / scale)%Q.

(** [sum(l)] and [np.mean(l)] *)
Definition Qsum (l : list Q) : Q := fold_right Qplus 0%Q l.
Definition np_mean (l : list Q) : Q := (Qsum l / inject_Z (len l))%Q.

(** ** Attribution engine *)

Section Attribution.
Local Open Scope Q_scope.

Definition _get_signature_score (attack_types : list string) : Q :=
  let attack_set : gset string := list_to_set attack_types in
  if bool_decide ({["DDoS"; "Malware"]} ⊆ attack_set) then 0.95
  else if bool_decide ("Ransomware" ∈ attack_types)
          && bool_decide ("Malware" ∈ attack_types) then 0.90
  else if bool_decide (attack_set = {["DDoS"]}) then 0.80
  else if bool_decide (attack_set = {["Brute Force"]}) then 0.60
  else 0.50.

Definition geo_profiles : list (string * Q) :=
  [("Russia", 0.92); ("China", 0.90); ("Iran", 0.88);
   ("North Korea", 0.91); ("United States", 0.75);
   ("Brazil", 0.80); ("Romania", 0.82)].

(** [d.get(key, default)] on a literal table *)
Fixpoint dict_get {V : Type} (d : list (string * V)) (key : string) (default : V) : V :=
  match d with
  | [] => default
  | (k, v) :: d' => if String.eqb k key then v else dict_get d' key default
  end.

Definition _get_geographic_score (country : string) : Q :=
  dict_get geo_profiles country 0.40.

Definition _get_timing_score (interval : Q) (num_attacks : Z) : Q :=
  if (num_attacks <? 3)%Z then 0.50
  else if interval <? 30 then 0.95
  else if interval <? 60 then 0.88
  else if interval <? 120 then 0.80
  else if interval <? 720 then 0.65
  else 0.45.

Definition _get_operational_score (attack_types : list string) (num_attacks : Z) : Q :=
  let score := 0.50 in
  let distinct := size (list_to_set attack_types : gset string) in
  let score :=
    if (3 <=? distinct)%nat then score + 0.25
    else if (2 <=? distinct)%nat then score + 0.15
    else score in
  let score :=
    if (15 <? num_attacks)%Z then score + 0.20
    else if (8 <? num_attacks)%Z then score + 0.12
    else score in
  Qmin 1.0 score.

Definition weighted_confidence (sig_score geo_score timing_score op_score : Q) : Q :=
  sig_score * 0.40 + geo_score * 0.25 + timing_score * 0.20 + op_score * 0.15.

(** The [if]/[elif] chain of [_attribute_threat_actor]: the pair of the
    local variables [actor] and [confidence] it assigns. *)
Definition decision_logic (attack_types : list string)
    (sig_score geo_score timing_score op_score : Q) : string * Q :=
  if (0.90 <=? sig_score) && (0.88 <=? geo_score) && (0.75 <=? timing_score)
  then ("State-Sponsored APT", 0.92)
  else if bool_decide ("Ransomware" ∈ attack_types)
          && (0.85 <=? sig_score) && (0.65 <=? op_score)
  then ("Criminal Organization", 0.89)
  else if bool_decide (list_to_set attack_types =@{gset string} {["DDoS"]})
          && (0.70 <=? timing_score)
  then ("Hacktivist Collective", 0.85)
  else if (sig_score <=? 0.65) && (op_score <=? 0.50)
  then ("Script Kiddies", 0.78)
  else ("Unknown Threat", 0.65).

Record Attribution : Type := {
  actor : string;
  confidence : Q;
  sophistication : string
}.

Definition _attribute_threat_actor (attack_types : list string) (country : string)
    (interval : Q) (num_attacks : Z) : Attribution :=
  let sig_score := _get_signature_score attack_types in
  let geo_score := _get_geographic_score country in
  let timing_score := _get_timing_score interval num_attacks in
  let op_score := _get_operational_score attack_types num_attacks in
  let weighted := weighted_confidence sig_score geo_score timing_score op_score in
  let '(actor, _) := decision_logic attack_types sig_score geo_score timing_score op_score in
  {| actor := actor;
     confidence := py_round (Qmin 0.97 weighted) 4;
     sophistication :=
       if 0.85 <=? sig_score then "High"
       else if 0.60 <=? sig_score then "Medium"
       else "Low" |}.

End Attribution.

(** ** Timestamps

    [datetime.fromisoformat] is library code.  The model accepts the grammar
    that the library documents for the strings written by
    [datetime.isoformat]:
    [YYYY-MM-DD[*HH[:MM[:SS[.fff[fff]]]][+HH:MM[:SS[.ffffff]]]]]
    (the separator [*] is any one character) and checks the ranges that the
    [datetime] constructor checks.  A value without offset is naive
    ([tzinfo] is [None]); otherwise [tzinfo] is the offset from UTC in
    microseconds. *)

Record datetime : Type := {
  year : Z; month : Z; day : Z;
  hour : Z; minute : Z; second : Z; microsecond : Z;
  tzinfo : option Z
}.

Definition digit_val (c : ascii) : option Z :=
  let n := nat_of_ascii c in
  if (48 <=? n)%nat && (n <=? 57)%nat then Some (Z.of_nat (n - 48)) else None.

(** All characters are decimal digits; the value they spell. *)
Definition parse_digits (cs : list ascii) : option Z :=
  foldl (fun acc c => a ← acc; d ← digit_val c; Some (10 * a + d)%Z) (Some 0%Z) cs.

Definition parse_isoformat_date (cs : list ascii) : option (Z * Z * Z) :=
  match cs with
  | [y1; y2; y3; y4; s1; m1; m2; s2; d1; d2] =>
      if Ascii.eqb s1 "-" && Ascii.eqb s2 "-" then
        y ← parse_digits [y1; y2; y3; y4];
        m ← parse_digits [m1; m2];
        d ← parse_digits [d1; d2];
        Some (y, m, d)
      else None
  | _ => None
  end.

Definition parse_fraction (cs : list ascii) : option Z :=
  match length cs with
  | 3%nat => f ← parse_digits cs; Some (f * 1000)%Z
  | 6%nat => parse_digits cs
  | _ => None
  end.

(** [HH[:MM[:SS[.fff[fff]]]]] *)
Definition parse_hh_mm_ss_ff (cs : list ascii) : option (Z * Z * Z * Z) :=
  match cs with
  | h1 :: h2 :: rest =>
      h ← parse_digits [h1; h2];
      match rest with
      | [] => Some (h, 0, 0, 0)%Z
      | c1 :: m1 :: m2 :: rest =>
          if negb (Ascii.eqb c1 ":") then None else
          m ← parse_digits [m1; m2];
          match rest with
          | [] => Some (h, m, 0, 0)%Z
          | c2 :: s1 :: s2 :: rest =>
              if negb (Ascii.eqb c2 ":") then None else
              s ← parse_digits [s1; s2];
              match rest with
              | [] => Some (h, m, s, 0)%Z
              | c3 :: frac =>
                  if negb (Ascii.eqb c3 ".") then None else
                  f ← parse_fraction frac;
                  Some (h, m, s, f)
              end
          | _ => None
          end
      | _ => None
      end
  | _ => None
  end.

Definition is_sign (c : ascii) : bool := Ascii.eqb c "+" || Ascii.eqb c "-".

(** The characters before the first sign, and the sign with what follows. *)
Fixpoint split_at_sign (cs : list ascii) : list ascii * list ascii :=
  match cs with
  | [] => ([], [])
  | c :: cs' =>
      if is_sign c then ([], cs)
      else let '(a, b) := split_at_sign cs' in (c :: a, b)
  end.

(** [HH[:MM[:SS[.fff[fff]]]][+HH:MM[:SS[.ffffff]]]]: the time fields and the
    offset in microseconds. *)
Definition parse_isoformat_time (cs : list ascii) : option (Z * Z * Z * Z * option Z) :=
  let '(timestr, tzstr) := split_at_sign cs in
  t ← parse_hh_mm_ss_ff timestr;
  match tzstr with
  | [] => Some (t, None)
  | sign :: tz =>
      if bool_decide (length tz ∈ [5; 8; 15]%nat) then
        '(th, tm, ts, tf) ← parse_hh_mm_ss_ff tz;
        let off := ((((th * 60 + tm) * 60 + ts) * 1000000) + tf)%Z in
        Some (t, Some (if Ascii.eqb sign "-" then (- off)%Z else off))
      else None
  end.

Definition is_leap (y : Z) : bool :=
  ((y mod 4 =? 0) && (negb (y mod 100 =? 0) || (y mod 400 =? 0)))%Z.

Definition days_in_month (y m : Z) : Z :=
  if (m =? 2)%Z then (if is_leap y then 29 else 28)%Z
  else if bool_decide (m ∈ [4; 6; 9; 11]%Z) then 30%Z
  else 31%Z.

Definition days_before_month (y m : Z) : Z :=
  foldr Z.add 0%Z (map (days_in_month y) (map Z.of_nat (seq 1 (Z.to_nat (m - 1))))).

Definition in_range (lo x hi : Z) : bool := ((lo <=? x) && (x <=? hi))%Z.

(** The checks of the [datetime] and [timezone] constructors. *)
Definition valid_datetime (d : datetime) : bool :=
  in_range 1 (year d) 9999 && in_range 1 (month d) 12
  && in_range 1 (day d) (days_in_month (year d) (month d))
  && in_range 0 (hour d) 23 && in_range 0 (minute d) 59
  && in_range 0 (second d) 59 && in_range 0 (microsecond d) 999999
  && match tzinfo d with
     | None => true
     | Some off => (Z.abs off <? 86400000000)%Z
     end.

Definition fromisoformat (date_string : string) : Res datetime :=
  let cs := list_ascii_of_string date_string in
  let parsed : option datetime :=
    '(y, m, d) ← parse_isoformat_date (take 10 cs);
    match drop 10 cs with
    | [] => Some {| year := y; month := m; day := d; hour := 0; minute := 0;
                    second := 0; microsecond := 0; tzinfo := None |}
    | _sep :: tstr =>
        '(hh, mm, ss, ff, tz) ← parse_isoformat_time tstr;
        Some {| year := y; month := m; day := d; hour := hh; minute := mm;
                second := ss; microsecond := ff; tzinfo := tz |}
    end in
  match parsed with
  | Some d => if valid_datetime d then Ok d else Raise ValueError
  | None => Raise ValueError
  end.

(** [s.replace('Z', '+00:00')] *)
Fixpoint replace_Z (s : string) : string :=
  match s with
  | EmptyString => EmptyString
  | String c s' =>
      if Ascii.eqb c "Z" then "+00:00" +:+ replace_Z s'
      else String c (replace_Z s')
  end.

(** Proleptic Gregorian ordinal, [date.toordinal()] (1 January of year 1 is day 1). *)
Definition toordinal (d : datetime) : Z :=
  let y := (year d - 1)%Z in
  (y * 365 + y / 4 - y / 100 + y / 400 + days_before_month (year d) (month d) + day d)%Z.

(** [d.weekday()]: Monday is 0. *)
Definition weekday (d : datetime) : Z := ((toordinal d + 6) mod 7)%Z.

(** Microseconds since the start of the calendar, in UTC for an aware value. *)
Definition instant (d : datetime) : Z :=
  ((((toordinal d * 24 + hour d) * 60 + minute d) * 60 + second d) * 1000000
   + microsecond d - default 0 (tzinfo d))%Z.

Definition is_aware (d : datetime) : bool := bool_decide (is_Some (tzinfo d)).

(** Ordering and subtraction raise [TypeError] between a naive and an aware value. *)
Definition comparable (a b : datetime) : bool := eqb (is_aware a) (is_aware b).

(** [(a - b).total_seconds() / 60] *)
Definition minutes_between (a b : datetime) : Res Q :=
  if comparable a b then Ok ((instant a - instant b) # 60000000)%Q
  else Raise TypeError.

(** [min(l)] and [max(l)] of a non-empty list: the first extremal element. *)
Fixpoint extremum (better : Z -> Z -> bool) (cur : datetime) (l : list datetime)
    : Res datetime :=
  match l with
  | [] => Ok cur
  | d :: l' =>
      if comparable d cur then
        extremum better (if better (instant d) (instant cur) then d else cur) l'
      else Raise TypeError
  end.

Definition py_min (l : list datetime) : Res datetime :=
  match l with
  | [] => Raise ValueError
  | d :: l' => extremum Z.ltb d l'
  end.

Definition py_max (l : list datetime) : Res datetime :=
  match l with
  | [] => Raise ValueError
  | d :: l' => extremum Z.gtb d l'
  end.

(** ** Attack events and feature extraction *)

(** The keys of an attack [dict] that the detector reads.  [source_lat] and
    [source_lng] are read with [attack.get(_, 0)] and may be absent. *)
Module Attack.
Record t : Type := {
  id : string;
  attack_type : string;
  source_country : string;
  target_country : string;
  source_lat : option Q;
  source_lng : option Q;
  intensity : Q;
  timestamp : string
}.
End Attack.

Definition country_codes : list (string * Z) :=
  [("United States", 1); ("China", 2); ("Russia", 3); ("Germany", 4);
   ("United Kingdom", 5); ("France", 6); ("Japan", 7); ("Brazil", 8);
   ("India", 9); ("South Korea", 10); ("Canada", 11); ("Australia", 12);
   ("Netherlands", 13); ("Poland", 14); ("Sweden", 15)]%Z.

Definition _country_to_code (country : string) : Z :=
  dict_get country_codes country 0%Z.

Definition type_codes : list (string * Z) :=
  [("DDoS", 1); ("Botnet", 2); ("Ransomware", 3); ("Malware", 4);
   ("Phishing", 5); ("SQL Injection", 6); ("XSS", 7); ("Brute Force", 8)]%Z.

Definition _attack_type_to_code (attack_type : string) : Z :=
  dict_get type_codes attack_type 0%Z.

Module Features.
Record t : Type := {
  hour : Z;
  day : Z;
  country_code : Z;
  attack_type_code : Z;
  intensity : Q;
  target_country_code : Z;
  lat : Q;
  lng : Q
}.
End Features.

Definition parse_timestamp (attack : Attack.t) : Res datetime :=
  fromisoformat (replace_Z (Attack.timestamp attack)).

Definition create_attack_features (attack : Attack.t) : Res Features.t :=
  timestamp ← parse_timestamp attack;
  Ok {| Features.hour := hour timestamp;
        Features.day := weekday timestamp;
        Features.country_code := _country_to_code (Attack.source_country attack);
        Features.attack_type_code := _attack_type_to_code (Attack.attack_type attack);
        Features.intensity := Attack.intensity attack;
        Features.target_country_code := _country_to_code (Attack.target_country attack);
        Features.lat := default 0%Q (Attack.source_lat attack);
        Features.lng := default 0%Q (Attack.source_lng attack) |}.

(** The row of the feature matrix built in the loop of [detect_campaigns]. *)
Definition feature_vector (attack : Attack.t) : Res (list Q) :=
  features ← create_attack_features attack;
  Ok [inject_Z (Features.hour features);
      inject_Z (Features.day features);
      inject_Z (Features.country_code features);
      inject_Z (Features.attack_type_code features);
      Features.intensity features;
      inject_Z (Features.target_country_code features);
      (Features.lat features / 90)%Q;
      (Features.lng features / 180)%Q].

(** ** Campaign records and the detector state *)

Module Campaign.
Record t : Type := {
  campaign_id : string;
  start_time : datetime;      (* serialised with [isoformat()] in the source *)
  end_time : datetime;
  duration_minutes : Q;
  num_attacks : Z;
  attack_ids : list string;
  primary_source_country : string;
  attack_types : list (string * Z);
  signature : list string;
  avg_interval_minutes : Q;
  attributed_actor : string;
  confidence : Q;
  sophistication : string;
  severity_score : Q
}.
End Campaign.

Record CampaignDetector : Type := {
  campaigns : gmap string Campaign.t;
  attack_to_campaign : gmap string string;
  next_campaign_id : Z
}.

(** [CampaignDetector.__init__] *)
Definition new_detector : CampaignDetector :=
  {| campaigns := ∅; attack_to_campaign := ∅; next_campaign_id := 1 |}.

(** [d[key] += 1] on a [defaultdict(int)], keys kept in insertion order. *)
Fixpoint increment (key : string) (d : list (string * Z)) : list (string * Z) :=
  match d with
  | [] => [(key, 1%Z)]
  | (k, v) :: d' =>
      if String.eqb k key then (k, (v + 1)%Z) :: d' else (k, v) :: increment key d'
  end.

Definition histogram (keys : list string) : list (string * Z) :=
  foldl (fun d k => increment k d) [] keys.

(** [max(d, key=d.get)]: the first key with the greatest count. *)
Fixpoint max_by_count (cur : string * Z) (d : list (string * Z)) : string :=
  match d with
  | [] => cur.1
  | (k, v) :: d' => max_by_count (if (cur.2 <? v)%Z then (k, v) else cur) d'
  end.

Definition primary_key (d : list (string * Z)) : Res string :=
  match d with
  | [] => Raise ValueError
  | kv :: d' => Ok (max_by_count kv d')
  end.

(** The list [time_diffs]: minutes between consecutive members, in the order
    of the list. *)
Fixpoint time_diffs (timestamps : list datetime) : Res (list Q) :=
  match timestamps with
  | a :: (b :: _) as rest =>
      diff ← minutes_between b a;
      diffs ← time_diffs rest;
      Ok (diff :: diffs)
  | _ => Ok []
  end.

(** [np.mean(time_diffs) if time_diffs else 0] *)
Definition avg_interval_of (diffs : list Q) : Q :=
  match diffs with
  | [] => 0%Q
  | _ => np_mean diffs
  end.

Definition _calculate_severity (attacks : list Attack.t) : Q :=
  let avg_intensity := np_mean (map Attack.intensity attacks) in
  let num_attacks := len attacks in
  let severity :=
    Qmin 10 (avg_intensity * 0.6 + inject_Z (Z.min num_attacks 10) * 0.4)%Q in
  py_round severity 2.

(** Decimal digits of a natural number, [str(n)]. *)
Definition str_N (n : N) : string := NilEmpty.string_of_uint (N.to_uint n).

(** [s.rjust(width, '0')] *)
Definition zfill (width : nat) (s : string) : string :=
  string_of_list_ascii (replicate (width - String.length s) "0"%char) +:+ s.

(** [f"{n:04d}"]: the sign, then the digits padded with zeros to the width. *)
Definition format_04d (n : Z) : string :=
  if (n <? 0)%Z then "-" +:+ zfill 3 (str_N (Z.to_N (- n)))
  else zfill 4 (str_N (Z.to_N n)).

Definition format_campaign_id (n : Z) : string := "CAMPAIGN_" +:+ format_04d n.

Definition _create_campaign (self : CampaignDetector)
    (attacks : list Attack.t) (attack_ids : list string)
    : Res (Campaign.t * CampaignDetector) :=
  timestamps ← mapM parse_timestamp attacks;
  start_time ← py_min timestamps;
  end_time ← py_max timestamps;
  duration_minutes ← minutes_between end_time start_time;
  let countries := histogram (map Attack.source_country attacks) in
  primary_country ← primary_key countries;
  let attack_types := histogram (map Attack.attack_type attacks) in
  let signature := map fst attack_types in
  diffs ← time_diffs timestamps;
  let avg_interval := avg_interval_of diffs in
  let attribution :=
    _attribute_threat_actor signature primary_country avg_interval (len attacks) in
  let campaign_id := format_campaign_id (next_campaign_id self) in
  let campaign :=
    {| Campaign.campaign_id := campaign_id;
       Campaign.start_time := start_time;
       Campaign.end_time := end_time;
       Campaign.duration_minutes := py_round duration_minutes 2;
       Campaign.num_attacks := len attacks;
       Campaign.attack_ids := attack_ids;
       Campaign.primary_source_country := primary_country;
       Campaign.attack_types := attack_types;
       Campaign.signature := signature;
       Campaign.avg_interval_minutes := py_round avg_interval 2;
       Campaign.attributed_actor := actor attribution;
       Campaign.confidence := confidence attribution;
       Campaign.sophistication := sophistication attribution;
       Campaign.severity_score := _calculate_severity attacks |} in
  Ok (campaign,
      {| campaigns := <[campaign_id := campaign]> (campaigns self);
         attack_to_campaign := attack_to_campaign self;
         next_campaign_id := (next_campaign_id self + 1)%Z |}).

(** ** The clustering library

    [StandardScaler] and [DBSCAN] are library code (scikit-learn), modelled
    from their documented algorithms.

    [StandardScaler.fit_transform] centres every column on its mean and
    divides it by [scale_], the square root of the population variance,
    with [scale_ = 1] for a column of zero variance.  Square roots are not
    rational, so a scaled matrix is kept as the centred rows together with
    [scale_ ** 2] per column.  [DBSCAN] only asks whether the Euclidean
    distance of two scaled rows is at most [eps]; that is decided exactly
    on the squares. *)

Definition matrix : Type := list (list Q).

(** Column [d] of a matrix (the entries that exist). *)
Definition column (X : matrix) (d : nat) : list Q := omap (fun row => row !! d) X.

Definition np_var (l : list Q) : Q :=
  let m := np_mean l in
  np_mean (map (fun x => (x - m) * (x - m))%Q l).

Record Scaled : Type := {
  centered : matrix;      (* X - mean_ *)
  scale_sq : list Q       (* scale_ ** 2, per column *)
}.

Definition n_features (X : matrix) : nat :=
  match X with
  | [] => 0
  | row :: _ => length row
  end.

Definition StandardScaler_fit_transform (X : matrix) : Res Scaled :=
  match X with
  | [] => Raise ValueError     (* an empty array is rejected *)
  | _ =>
      let cols := map (column X) (seq 0 (n_features X)) in
      let mean_ := map np_mean cols in
      let var_ := map np_var cols in
      Ok {| centered := map (fun row => zip_with Qminus row mean_) X;
            scale_sq := map (fun v => if Qeq_bool v 0 then 1%Q else v) var_ |}
  end.

(** Squared Euclidean distance of two scaled rows:
    the sum of [((x_d - y_d) / scale_d) ** 2]. *)
Fixpoint sq_distance (x y : list Q) (ssq : list Q) : Q :=
  match x, y, ssq with
  | a :: x', b :: y', s :: ssq' => ((a - b) * (a - b) / s + sq_distance x' y' ssq')%Q
  | _, _, _ => 0%Q
  end.

Definition within (eps : Q) (X : Scaled) (i j : nat) : bool :=
  match centered X !! i, centered X !! j with
  | Some x, Some y => (sq_distance x y (scale_sq X) <=? eps * eps)%Q
  | _, _ => false
  end.

(** [NearestNeighbors.radius_neighbors]: for every sample the samples within
    the radius, itself included. *)
Definition radius_neighbors (n : nat) (near : nat -> nat -> bool) : list (list nat) :=
  map (fun i => filter (fun j => near i j) (seq 0 n)) (seq 0 n).

Definition noise : Z := (-1)%Z.

Definition label_of (labels : list Z) (i : nat) : Z := default noise (labels !! i).
Definition is_core_at (core_samples : list bool) (i : nat) : bool :=
  default false (core_samples !! i).
Definition neighbors_of (neighborhoods : list (list nat)) (i : nat) : list nat :=
  default [] (neighborhoods !! i).

(** The [while True] loop of [dbscan_inner]: a depth-first walk from the
    sample [i] that gives [label_num] to every sample reached.  The stack is
    a list whose head is the back of the vector. *)
Fixpoint dbscan_expand (fuel : nat) (core_samples : list bool)
    (neighborhoods : list (list nat)) (label_num : Z)
    (i : nat) (stack : list nat) (labels : list Z) : option (list Z) :=
  match fuel with
  | O => None
  | S fuel' =>
      let '(labels1, stack1) :=
        if (label_of labels i =? noise)%Z then
          let labels1 := <[i := label_num]> labels in
          if is_core_at core_samples i then
            (labels1,
             rev (filter (fun v => label_of labels1 v = noise) (neighbors_of neighborhoods i))
             ++ stack)
          else (labels1, stack)
        else (labels, stack) in
      match stack1 with
      | [] => Some labels1
      | top :: stack2 =>
          dbscan_expand fuel' core_samples neighborhoods label_num top stack2 labels1
      end
  end.

(** The [for i in range(n)] loop of [dbscan_inner]. *)
Fixpoint dbscan_seeds (fuel : nat) (core_samples : list bool)
    (neighborhoods : list (list nat)) (seeds : list nat)
    (label_num : Z) (labels : list Z) : option (list Z) :=
  match seeds with
  | [] => Some labels
  | i :: seeds' =>
      if negb (label_of labels i =? noise)%Z || negb (is_core_at core_samples i) then
        dbscan_seeds fuel core_samples neighborhoods seeds' label_num labels
      else
        labels' ← dbscan_expand fuel core_samples neighborhoods label_num i [] labels;
        dbscan_seeds fuel core_samples neighborhoods seeds' (label_num + 1)%Z labels'
  end.

(** Every pass of the inner loop either labels a sample or pops the stack,
    and labelling pushes at most [n] samples: [n * (n + 1) + 1] passes are
    enough for one walk. *)
Definition dbscan_fuel (n : nat) : nat := n * (n + 1) + 1.

Definition dbscan_inner (core_samples : list bool) (neighborhoods : list (list nat))
    (labels : list Z) : option (list Z) :=
  let n := length labels in
  dbscan_seeds (dbscan_fuel n) core_samples neighborhoods (seq 0 n) 0%Z labels.

(** [DBSCAN(eps, min_samples).fit_predict(X)] *)
Definition DBSCAN_fit_predict (eps : Q) (min_samples : Z) (X : Scaled) : Res (list Z) :=
  if (min_samples <? 1)%Z then Raise ValueError   (* parameter validation *)
  else
    let n := length (centered X) in
    let neighborhoods := radius_neighbors n (within eps X) in
    let core_samples := map (fun nb => (min_samples <=? len nb)%Z) neighborhoods in
    match dbscan_inner core_samples neighborhoods (replicate n noise) with
    | Some labels => Ok labels
    | None => Raise OutOfFuel
    end.

(** The two library calls of [detect_campaigns]. *)
Definition sklearn_cluster (X : matrix) (min_samples : Z) : Res (list Z) :=
  X_scaled ← StandardScaler_fit_transform X;
  DBSCAN_fit_predict 0.5 min_samples X_scaled.

(** ** Detection *)

(** [l[i]] *)
Definition getitem {A : Type} (l : list A) (i : nat) : Res A :=
  match l !! i with
  | Some a => Ok a
  | None => Raise IndexError
  end.

(** [np.where(labels == cluster_id)[0]] *)
Definition np_where (labels : list Z) (cluster_id : Z) : list nat :=
  filter (fun i => label_of labels i = cluster_id) (seq 0 (length labels)).

(** The distinct labels, as [set(labels)] yields them (small integers come
    out of a [set] in increasing order; the place of [-1] is immaterial
    because it is skipped). *)
Definition label_set (labels : list Z) : list Z :=
  merge_sort Z.le (remove_dups labels).

Definition assign_campaign (campaign_id : string) (self : CampaignDetector)
    (attack_id : string) : CampaignDetector :=
  {| campaigns := campaigns self;
     attack_to_campaign := <[attack_id := campaign_id]> (attack_to_campaign self);
     next_campaign_id := next_campaign_id self |}.

Section Detection.

(** The clustering step: feature matrix and [min_samples] to labels. *)
Variable cluster : matrix -> Z -> Res (list Z).

(** The loop [for cluster_id in set(labels)].  An exception leaves the
    registry as the campaigns created before it made it. *)
Fixpoint form_campaigns (self : CampaignDetector) (attack_history : list Attack.t)
    (attack_ids : list string) (labels : list Z) (cluster_ids : list Z)
    (detected_campaigns : list Campaign.t)
    : Res (list Campaign.t) * CampaignDetector :=
  match cluster_ids with
  | [] => (Ok detected_campaigns, self)
  | cluster_id :: rest =>
      if (cluster_id =? noise)%Z then
        form_campaigns self attack_history attack_ids labels rest detected_campaigns
      else
        let cluster_indices := np_where labels cluster_id in
        let created :=
          cluster_attacks ← mapM (getitem attack_history) cluster_indices;
          cluster_attack_ids ← mapM (getitem attack_ids) cluster_indices;
          _create_campaign self cluster_attacks cluster_attack_ids in
        match created with
        | Raise e => (Raise e, self)
        | Ok (campaign, self1) =>
            let self2 :=
              foldl (assign_campaign (Campaign.campaign_id campaign)) self1
                    (Campaign.attack_ids campaign) in
            form_campaigns self2 attack_history attack_ids labels rest
                           (detected_campaigns ++ [campaign])
        end
  end.

Definition detect_campaigns_with (self : CampaignDetector)
    (attack_history : list Attack.t) (min_attacks_per_campaign : Z)
    : Res (list Campaign.t) * CampaignDetector :=
  if (len attack_history <? min_attacks_per_campaign)%Z then (Ok [], self)
  else
    match mapM feature_vector attack_history with
    | Raise e => (Raise e, self)
    | Ok X =>
        let attack_ids := map Attack.id attack_history in
        match cluster X min_attacks_per_campaign with
        | Raise e => (Raise e, self)
        | Ok labels =>
            form_campaigns self attack_history attack_ids labels (label_set labels) []
        end
    end.

(** ** The attack history and the [/api/campaigns] route *)

(** The module-level state that the route reads. *)
Record Globals : Type := {
  attack_history : list Attack.t;
  campaign_detector : CampaignDetector
}.

Inductive CampaignsResponse : Type :=
  | NeedMore (campaigns : list Campaign.t) (message : string)
  | Detected (campaigns : list Campaign.t)
             (total_detected total_attacks_analyzed : Z)
  | ServerError (e : PyError).

Definition get_campaigns_with (g : Globals) : CampaignsResponse * Globals :=
  if (len (attack_history g) <? 50)%Z then
    (NeedMore []
       ("Need " +:+ str_N (Z.to_N (50 - len (attack_history g)))
        +:+ " more attacks to detect campaigns"),
     g)
  else
    match detect_campaigns_with (campaign_detector g) (attack_history g) 3 with
    | (Ok campaigns, detector) =>
        (Detected campaigns (len campaigns) (len (attack_history g)),
         {| attack_history := attack_history g; campaign_detector := detector |})
    | (Raise e, detector) =>
        (ServerError e,
         {| attack_history := attack_history g; campaign_detector := detector |})
    end.

(** Detection runs one after the other on one detector: the campaigns the
    runs return, in order, and the detector they leave. *)
Fixpoint run_detections (self : CampaignDetector) (runs : list (list Attack.t * Z))
    : list Campaign.t * CampaignDetector :=
  match runs with
  | [] => ([], self)
  | (batch, min_attacks) :: rest =>
      let '(result, self1) := detect_campaigns_with self batch min_attacks in
      let '(later, self2) := run_detections self1 rest in
      (match result with Ok cs => cs | Raise _ => [] end ++ later, self2)
  end.

End Detection.

Definition detect_campaigns := detect_campaigns_with sklearn_cluster.
Definition get_campaigns := get_campaigns_with sklearn_cluster.

Definition MAX_HISTORY : Z := 5000.

(** The last three lines of [generate_mock_attack]:
    [attack_history.append(attack)], then [pop(0)] when the list is longer
    than [MAX_HISTORY]. *)
Definition append_attack (history : list Attack.t) (attack : Attack.t)
    : list Attack.t :=
  let history := history ++ [attack] in
  if (MAX_HISTORY <? len history)%Z then drop 1 history
  else history.

(** ** Sample events used in the examples below *)

Definition sample_attack (id attack_type country timestamp : string)
    (lat intensity : Q) : Attack.t :=
  {| Attack.id := id;
     Attack.attack_type := attack_type;
     Attack.source_country := country;
     Attack.target_country := "Germany";
     Attack.source_lat := Some lat;
     Attack.source_lng := Some 105%Q;
     Attack.intensity := intensity;
     Attack.timestamp := timestamp |}.

(** Two DDoS events from Russia, five minutes apart. *)
Definition two_ddos : list Attack.t :=
  [sample_attack "attack_1001_1704103200" "DDoS" "Russia" "2024-01-01T10:00:00+00:00" 61 8;
   sample_attack "attack_1002_1704103500" "DDoS" "Russia" "2024-01-01T10:05:00+00:00" 61 9].

(** Five DDoS events from Russia, ten minutes apart, intensity 9. *)
Definition five_ddos : list Attack.t :=
  [sample_attack "attack_2001_1704103200" "DDoS" "Russia" "2024-01-01T10:00:00+00:00" 61 9;
   sample_attack "attack_2002_1704103800" "DDoS" "Russia" "2024-01-01T10:10:00+00:00" 61 9;
   sample_attack "attack_2003_1704104400" "DDoS" "Russia" "2024-01-01T10:20:00+00:00" 61 9;
   sample_attack "attack_2004_1704105000" "DDoS" "Russia" "2024-01-01T10:30:00+00:00" 61 9;
   sample_attack "attack_2005_1704105600" "DDoS" "Russia" "2024-01-01T10:40:00+00:00" 61 9].

(** ** Ranges of the four sub-scores *)

Definition signature_values : list Q := [0.95; 0.90; 0.80; 0.60; 0.50]%Q.
Definition geographic_values : list Q := map snd geo_profiles ++ [0.40%Q].
Definition timing_values : list Q := [0.50; 0.95; 0.88; 0.80; 0.65; 0.45]%Q.

(** The nine ways through [_get_operational_score]. *)
Definition operational_values : list Q :=
  [Qmin 1.0 (0.50 + 0.25 + 0.20); Qmin 1.0 (0.50 + 0.25 + 0.12); Qmin 1.0 (0.50 + 0.25);
   Qmin 1.0 (0.50 + 0.15 + 0.20); Qmin 1.0 (0.50 + 0.15 + 0.12); Qmin 1.0 (0.50 + 0.15);
   Qmin 1.0 (0.50 + 0.20); Qmin 1.0 (0.50 + 0.12); Qmin 1.0 0.50]%Q.

(** The five constants assigned to the local variable [confidence]. *)
Definition rule_constants : list Q := [0.92; 0.89; 0.85; 0.78; 0.65]%Q.

(** The returned confidence is the composite itself: the cap at 0.97 and the
    rounding to four places leave it as it is; and it lies in
    [0.465, 0.9425]. *)
Definition composite_returned (sig_score geo_score timing_score op_score : Q) : bool :=
  let w := weighted_confidence sig_score geo_score timing_score op_score in
  Qeq_bool (py_round (Qmin 0.97 w) 4) w && Qle_bool 0.465 w && Qle_bool w 0.9425.

(** ** The timing sub-score as the design document words it *)

(** Minutes between consecutive instants (in microseconds), in list order. *)
Fixpoint consecutive_minutes (instants : list Z) : list Q :=
  match instants with
  | a :: (b :: _) as rest => ((b - a) # 60000000)%Q :: consecutive_minutes rest
  | _ => []
  end.

(** "Mean inter-event interval (minutes) among chronologically sorted
    members". *)
Definition spec_mean_interval (timestamps : list datetime) : Q :=
  avg_interval_of (consecutive_minutes (merge_sort Z.le (map instant timestamps))).

(** "Fewer than 3 members -> 0.50; interval < 30 min -> 0.95; < 60 -> 0.88;
    < 120 -> 0.80; < 720 -> 0.65; else -> 0.45". *)
Definition spec_timing_step (interval : Q) (members : Z) : Q :=
  if (members <? 3)%Z then 0.50%Q
  else if Qlt_bool interval 30 then 0.95%Q
  else if Qlt_bool interval 60 then 0.88%Q
  else if Qlt_bool interval 120 then 0.80%Q
  else if Qlt_bool interval 720 then 0.65%Q
  else 0.45%Q.

Definition spec_timing_score (timestamps : list datetime) : Q :=
  spec_timing_step (spec_mean_interval timestamps) (len timestamps).

(** The timing sub-score that [_create_campaign] hands to the attribution:
    [_get_timing_score] of the mean of [time_diffs] and the member count. *)
Definition cluster_timing_score (attacks : list Attack.t) : Res Q :=
  timestamps ← mapM parse_timestamp attacks;
  diffs ← time_diffs timestamps;
  Ok (_get_timing_score (avg_interval_of diffs) (len attacks)).

(** Three DDoS events from Russia that arrive out of chronological order:
    Monday 10:00, the Monday after at 10:00, and the first Monday at 10:10. *)
Definition out_of_order : list Attack.t :=
  [sample_attack "attack_3001_1704103200" "DDoS" "Russia" "2024-01-01T10:00:00+00:00" 61 9;
   sample_attack "attack_3002_1704708000" "DDoS" "Russia" "2024-01-08T10:00:00+00:00" 61 9;
   sample_attack "attack_3003_1704103800" "DDoS" "Russia" "2024-01-01T10:10:00+00:00" 61 9].

(** The parsed timestamps of a batch (empty if one does not parse). *)
Definition timestamps_of (attacks : list Attack.t) : list datetime :=
  match mapM parse_timestamp attacks with
  | Ok timestamps => timestamps
  | Raise _ => []
  end.

(** ** Cluster membership of a detection result *)

(** The member event ids of every returned campaign, or the exception. *)
Definition membership (result : Res (list Campaign.t)) : Res (list (list string)) :=
  match result with
  | Ok detected => Ok (map Campaign.attack_ids detected)
  | Raise e => Raise e
  end.

(** ** A history that holds an event with an unreadable timestamp *)

Definition malformed_attack : Attack.t :=
  sample_attack "attack_5050_1704103200" "DDoS" "Russia" "yesterday at noon" 61 9.

Definition history_with_malformed : list Attack.t :=
  map (fun i => sample_attack ("attack_" +:+ str_N (N.of_nat i) +:+ "_1704103200")
                  "DDoS" "Russia" "2024-01-01T10:00:00+00:00" 61 9)
      (seq 4001 49)
  ++ [malformed_attack].

Definition globals_with_malformed : Globals :=
  {| attack_history := history_with_malformed; campaign_detector := new_detector |}.

(** ** Campaign ids *)

(** The number that a string of decimal digits spells (leading zeros allowed). *)
Definition parse_decimal (s : string) : option N :=
  N.of_uint <$> NilEmpty.uint_of_string s.

(** The keys of the registry are exactly the ids allocated so far. *)
Definition registry_ids (self : CampaignDetector) : Prop :=
  forall id, is_Some (campaigns self !! id)
             <-> exists k, (1 <= k < next_campaign_id self)%Z /\ id = format_campaign_id k.

(** ** Invariants of the clustering loop *)

(** Every neighbour of a labelled core sample of a cluster below [k] is
    labelled. *)
Definition clusters_closed (core_samples : list bool) (neighborhoods : list (list nat))
    (labels : list Z) (k : Z) : Prop :=
  forall p v, is_core_at core_samples p = true ->
    label_of labels p <> noise -> (label_of labels p < k)%Z ->
    v ∈ neighbors_of neighborhoods p -> label_of labels v <> noise.

(** Two labelled core samples that are neighbours carry the same label. *)
Definition cores_agree (core_samples : list bool) (neighborhoods : list (list nat))
    (labels : list Z) : Prop :=
  forall p v, is_core_at core_samples p = true -> is_core_at core_samples v = true ->
    v ∈ neighbors_of neighborhoods p ->
    label_of labels p <> noise -> label_of labels v <> noise ->
    label_of labels p = label_of labels v.

(** A labelled sample is a core sample or the neighbour of a core sample
    with the same label. *)
Definition anchored (core_samples : list bool) (neighborhoods : list (list nat))
    (labels : list Z) : Prop :=
  forall u, label_of labels u <> noise ->
    is_core_at core_samples u = true
    \/ exists c, c ∈ neighbors_of neighborhoods u
         /\ is_core_at core_samples c = true
         /\ label_of labels c = label_of labels u.

(** Labels are [-1] or in [0, k). *)
Definition labels_below (labels : list Z) (k : Z) : Prop :=
  forall u, label_of labels u = noise \/ (0 <= label_of labels u < k)%Z.

(** Labels once given are kept. *)
Definition extends (labels labels' : list Z) : Prop :=
  forall u, label_of labels u <> noise -> label_of labels' u = label_of labels u.

(** The samples still without a label. *)
Definition unlabelled (n : nat) (labels : list Z) : list nat :=
  filter (fun u => label_of labels u = noise) (seq 0 n).

(** One pass of the [while True] loop of [dbscan_inner] up to the test of the
    stack: the labels and the stack after the sample [i] has been visited. *)
Definition dbscan_visit (core_samples : list bool) (neighborhoods : list (list nat))
    (label_num : Z) (i : nat) (stack : list nat) (labels : list Z)
    : list Z * list nat :=
  if (label_of labels i =? noise)%Z then
    let labels1 := <[i := label_num]> labels in
    if is_core_at core_samples i then
      (labels1,
       rev (filter (fun v => label_of labels1 v = noise) (neighbors_of neighborhoods i))
       ++ stack)
    else (labels1, stack)
  else (labels, stack).

(** The state of the walk that grows cluster [k]: [todo] holds the sample
    being visited and the stack. *)
Definition expanding (n : nat) (core_samples : list bool)
    (neighborhoods : list (list nat)) (k : Z) (labels : list Z) (todo : list nat)
    : Prop :=
  length labels = n
  /\ Forall (fun v => v < n) todo
  /\ (0 <= k)%Z
  /\ labels_below labels (k + 1)
  /\ clusters_closed core_samples neighborhoods labels k
  /\ (forall p v, is_core_at core_samples p = true -> label_of labels p = k ->
        v ∈ neighbors_of neighborhoods p -> label_of labels v <> noise \/ v ∈ todo)
  /\ cores_agree core_samples neighborhoods labels
  /\ anchored core_samples neighborhoods labels
  /\ (forall x, x ∈ todo ->
        is_core_at core_samples x = true
        \/ exists c, c ∈ neighbors_of neighborhoods x
             /\ is_core_at core_samples c = true /\ label_of labels c = k).

(** The state between two walks, [k] clusters found. *)
Definition between_walks (n : nat) (core_samples : list bool)
    (neighborhoods : list (list nat)) (k : Z) (labels : list Z) : Prop :=
  length labels = n
  /\ (0 <= k)%Z
  /\ labels_below labels k
  /\ clusters_closed core_samples neighborhoods labels k
  /\ cores_agree core_samples neighborhoods labels
  /\ anchored core_samples neighborhoods labels.

(** The measure that every pass of the walk decreases. *)
Definition potential (n : nat) (labels : list Z) (todo : list nat) : nat :=
  length (unlabelled n labels) * (n + 1) + length todo.

(** ** Batches for the clustering step *)

(** Three events that differ in their id only: one feature vector. *)
Definition three_identical : list Attack.t :=
  [sample_attack "attack_6001_1704103200" "DDoS" "Russia" "2024-01-01T10:00:00+00:00" 61 9;
   sample_attack "attack_6002_1704103200" "DDoS" "Russia" "2024-01-01T10:00:00+00:00" 61 9;
   sample_attack "attack_6003_1704103200" "DDoS" "Russia" "2024-01-01T10:00:00+00:00" 61 9].

(** Nine events that differ in their source latitude only.  With
    [min_samples = 4] the samples at 0 and at 18 are core samples of two
    clusters, and the sample at 9 is within reach of both. *)
Definition border_batch : list Attack.t :=
  [sample_attack "attack_7001_1704103200" "DDoS" "Russia" "2024-01-01T10:00:00+00:00" (-31) 9;
   sample_attack "attack_7002_1704103200" "DDoS" "Russia" "2024-01-01T10:00:00+00:00" (-8) 9;
   sample_attack "attack_7003_1704103200" "DDoS" "Russia" "2024-01-01T10:00:00+00:00" (-6) 9;
   sample_attack "attack_7004_1704103200" "DDoS" "Russia" "2024-01-01T10:00:00+00:00" 0 9;
   sample_attack "attack_7005_1704103200" "DDoS" "Russia" "2024-01-01T10:00:00+00:00" 9 9;
   sample_attack "attack_7006_1704103200" "DDoS" "Russia" "2024-01-01T10:00:00+00:00" 18 9;
   sample_attack "attack_7007_1704103200" "DDoS" "Russia" "2024-01-01T10:00:00+00:00" 24 9;
   sample_attack "attack_7008_1704103200" "DDoS" "Russia" "2024-01-01T10:00:00+00:00" 26 9;
   sample_attack "attack_7009_1704103200" "DDoS" "Russia" "2024-01-01T10:00:00+00:00" 49 9].

(** The labels the clustering step gives a batch. *)
Definition labels_of_batch (batch : list Attack.t) (min_samples : Z) : Res (list Z) :=
  X ← mapM feature_vector batch; sklearn_cluster X min_samples.

(** * Properties *)

(** ** Basic facts *)

Lemma len_app {A : Type} (l k : list A) : len (l ++ k) = (len l + len k)%Z.
Proof. unfold len. rewrite length_app. lia. Qed.

Lemma len_nonneg {A : Type} (l : list A) : (0 <= len l)%Z.
Proof. unfold len. lia. Qed.

(** ** The attack history (C6) *)

Lemma append_attack_below (history : list Attack.t) (attack : Attack.t) :
  (len history < MAX_HISTORY)%Z ->
  append_attack history attack = history ++ [attack].
Proof.
  intros Hlt. unfold append_attack.
  destruct (Z.ltb_spec MAX_HISTORY (len (history ++ [attack]))) as [Hgt | _]; [|done].
  rewrite len_app in Hgt. unfold len in *. simpl in Hgt. lia.
Qed.

Lemma append_attack_full (history : list Attack.t) (attack : Attack.t) :
  (MAX_HISTORY <= len history)%Z ->
  append_attack history attack = drop 1 history ++ [attack].
Proof.
  intros Hge. unfold append_attack.
  destruct (Z.ltb_spec MAX_HISTORY (len (history ++ [attack]))) as [_ | Hle].
  - destruct history as [| a history]; [|done].
    unfold len, MAX_HISTORY in Hge. simpl in Hge. lia.
  - rewrite len_app in Hle. unfold len in *. simpl in Hle. lia.
Qed.

Lemma append_attack_window (events : list Attack.t) (attack : Attack.t) :
  let cap := Z.to_nat MAX_HISTORY in
  append_attack (drop (length events - cap) events) attack
  = drop (length (events ++ [attack]) - cap) (events ++ [attack]).
Proof.
  intros cap.
  assert (Hcap : Z.of_nat cap = 5000%Z) by (unfold cap, MAX_HISTORY; lia).
  clearbody cap. rewrite length_app. simpl.
  destruct (decide (length events < cap)) as [Hlt | Hge].
  - rewrite append_attack_below.
    + replace (length events - cap) with 0 by lia.
      replace (length events + 1 - cap) with 0 by lia. done.
    + unfold len, MAX_HISTORY. rewrite length_drop. lia.
  - rewrite append_attack_full.
    + rewrite drop_drop.
      replace (length events - cap + 1) with (length events + 1 - cap) by lia.
      rewrite drop_app_le by lia. done.
    + unfold len, MAX_HISTORY. rewrite length_drop. lia.
Qed.

(** C6.  Whatever the sequence of appends to the initially empty history,
    the history never holds more than [MAX_HISTORY] = 5000 events and is
    exactly the newest (at most 5000) events in arrival order; one append
    puts the event at the tail and evicts nothing while the bound is kept,
    and otherwise evicts exactly one element, the head. *)
Theorem event_store_bounded_fifo (events history : list Attack.t) (attack : Attack.t) :
  let stored := foldl append_attack [] events in
  (len stored <= MAX_HISTORY)%Z
  /\ MAX_HISTORY = 5000%Z
  /\ stored = drop (length events - Z.to_nat MAX_HISTORY) events
  /\ (exists evicted,
        evicted ++ append_attack history attack = history ++ [attack]
        /\ evicted = (if (MAX_HISTORY <? len history + 1)%Z then take 1 history else [])
        /\ length evicted <= 1).
Proof.
  intros stored.
  assert (Hstored : stored = drop (length events - Z.to_nat MAX_HISTORY) events).
  { unfold stored. induction events as [| a events IH] using rev_ind; [done|].
    rewrite foldl_app. simpl. rewrite IH. apply append_attack_window. }
  split; [| split; [done | split; [done|]]].
  - rewrite Hstored. unfold len. rewrite length_drop. unfold MAX_HISTORY. lia.
  - destruct (Z.ltb_spec MAX_HISTORY (len history + 1)) as [Hfull | Hroom].
    + exists (take 1 history). split; [| split; [done|]].
      * rewrite append_attack_full by lia.
        rewrite app_assoc, take_drop. done.
      * rewrite length_take. lia.
    + exists []. split; [| split; [done | simpl; lia]].
      rewrite append_attack_below by lia. done.
Qed.

(** ** The size gate of [detect_campaigns] (C2) *)

(** C2.  For every batch and every [min_attacks_per_campaign], a batch with
    fewer events than that returns the empty list; the clustering step is
    not consulted (the result is the same for every clustering procedure),
    no campaign is created and the detector is left as it was. *)
Theorem small_batch_no_detection (cluster : matrix -> Z -> Res (list Z))
    (self : CampaignDetector) (batch : list Attack.t) (min_cluster_size : Z) :
  (len batch < min_cluster_size)%Z ->
  detect_campaigns_with cluster self batch min_cluster_size = (Ok [], self).
Proof.
  intros Hsmall. unfold detect_campaigns_with.
  destruct (Z.ltb_spec (len batch) min_cluster_size); [done | lia].
Qed.

Lemma small_batch_no_detection_witness :
  (len two_ddos < 3)%Z
  /\ detect_campaigns new_detector two_ddos 3 = (Ok [], new_detector).
Proof.
  split; [reflexivity|].
  apply (small_batch_no_detection sklearn_cluster new_detector two_ddos 3).
  reflexivity.
Defined.

(** ** The gate of the [/api/campaigns] route (C10) *)

(** C10.  While the history holds fewer than 50 events the route answers
    with an empty campaign list and a message, whatever the clustering
    procedure would say, and leaves the globals untouched; yet the detector
    itself finds a campaign in a history of five events. *)
Theorem campaigns_route_gated (cluster : matrix -> Z -> Res (list Z)) (g : Globals) :
  (len (attack_history g) < 50)%Z ->
  (exists message, get_campaigns_with cluster g = (NeedMore [] message, g))
  /\ (exists campaign detector,
        detect_campaigns new_detector five_ddos 3 = (Ok [campaign], detector)
        /\ (len five_ddos < 50)%Z).
Proof.
  intros Hfew. split.
  - unfold get_campaigns_with.
    destruct (Z.ltb_spec (len (attack_history g)) 50); [eauto | lia].
  - eexists _, _. split; [vm_compute; reflexivity | reflexivity].
Qed.

Lemma campaigns_route_gated_witness :
  let g := {| attack_history := five_ddos; campaign_detector := new_detector |} in
  (len (attack_history g) < 50)%Z
  /\ (exists message, get_campaigns g = (NeedMore [] message, g)).
Proof.
  split; [reflexivity|].
  apply (campaigns_route_gated sklearn_cluster
           {| attack_history := five_ddos; campaign_detector := new_detector |}).
  reflexivity.
Defined.

(** ** Attribution: the returned confidence (C1) *)

Ltac in_list :=
  repeat first [apply list_elem_of_here | apply list_elem_of_further].

Lemma signature_score_range (attack_types : list string) :
  _get_signature_score attack_types ∈ signature_values.
Proof.
  unfold _get_signature_score, signature_values.
  repeat match goal with
         | |- context [bool_decide ?P] => destruct (bool_decide P); simpl
         end; in_list.
Qed.

Lemma dict_get_range {V : Type} (d : list (string * V)) (key : string) (default : V) :
  dict_get d key default ∈ map snd d ++ [default].
Proof.
  induction d as [| [k v] d IH]; simpl.
  - apply list_elem_of_here.
  - destruct (String.eqb k key); [apply list_elem_of_here|].
    apply list_elem_of_further, IH.
Qed.

Lemma geographic_score_range (country : string) :
  _get_geographic_score country ∈ geographic_values.
Proof. apply dict_get_range. Qed.

Lemma timing_score_range (interval : Q) (num_attacks : Z) :
  _get_timing_score interval num_attacks ∈ timing_values.
Proof.
  unfold _get_timing_score, timing_values.
  destruct (num_attacks <? 3)%Z; [in_list|].
  repeat match goal with
         | |- context [Qlt_bool ?a ?b] => destruct (Qlt_bool a b)
         end; in_list.
Qed.

Lemma operational_score_range (attack_types : list string) (num_attacks : Z) :
  _get_operational_score attack_types num_attacks ∈ operational_values.
Proof.
  unfold _get_operational_score, operational_values.
  generalize (size (list_to_set attack_types : gset string)). intros distinct.
  destruct (3 <=? distinct)%nat; [| destruct (2 <=? distinct)%nat];
    (destruct (15 <? num_attacks)%Z; [| destruct (8 <? num_attacks)%Z]); in_list.
Qed.

Lemma composite_returned_everywhere :
  forallb (fun s => forallb (fun g => forallb (fun t => forallb (fun o =>
    composite_returned s g t o)
    operational_values) timing_values) geographic_values) signature_values = true.
Proof. vm_compute. reflexivity. Qed.

Lemma composite_returned_in_range (s g t o : Q) :
  s ∈ signature_values -> g ∈ geographic_values ->
  t ∈ timing_values -> o ∈ operational_values ->
  composite_returned s g t o = true.
Proof.
  intros Hs Hg Ht Ho.
  pose proof composite_returned_everywhere as H.
  rewrite forallb_forall in H. apply list_elem_of_In, H in Hs.
  rewrite forallb_forall in Hs. apply list_elem_of_In, Hs in Hg.
  rewrite forallb_forall in Hg. apply list_elem_of_In, Hg in Ht.
  rewrite forallb_forall in Ht. apply list_elem_of_In, Ht in Ho.
  exact Ho.
Qed.

Lemma attribution_confidence (attack_types : list string) (country : string)
    (interval : Q) (num_attacks : Z) :
  confidence (_attribute_threat_actor attack_types country interval num_attacks)
  = py_round (Qmin 0.97
      (weighted_confidence (_get_signature_score attack_types)
         (_get_geographic_score country)
         (_get_timing_score interval num_attacks)
         (_get_operational_score attack_types num_attacks))) 4.
Proof.
  unfold _attribute_threat_actor.
  destruct (decision_logic _ _ _ _ _). reflexivity.
Qed.

(** Inversion of a bind in [Res]. *)
Lemma bind_Ok {A B : Type} (r : Res A) (k : A -> Res B) (b : B) :
  (r ≫= k) = Ok b -> exists a, r = Ok a /\ k a = Ok b.
Proof. destruct r as [a | e]; [eauto | discriminate]. Qed.

Lemma create_campaign_attribution (self self' : CampaignDetector)
    (attacks : list Attack.t) (attack_ids : list string) (c : Campaign.t) :
  _create_campaign self attacks attack_ids = Ok (c, self') ->
  exists timestamps diffs,
    mapM parse_timestamp attacks = Ok timestamps
    /\ time_diffs timestamps = Ok diffs
    /\ Campaign.num_attacks c = len attacks
    /\ Campaign.attack_ids c = attack_ids
    /\ Campaign.campaign_id c = format_campaign_id (next_campaign_id self)
    /\ Campaign.confidence c
       = confidence (_attribute_threat_actor (Campaign.signature c)
                       (Campaign.primary_source_country c)
                       (avg_interval_of diffs) (len attacks))
    /\ self' = {| campaigns := <[Campaign.campaign_id c := c]> (campaigns self);
                  attack_to_campaign := attack_to_campaign self;
                  next_campaign_id := (next_campaign_id self + 1)%Z |}.
Proof.
  unfold _create_campaign. intros H.
  apply bind_Ok in H as (timestamps & Hts & H).
  apply bind_Ok in H as (start_time & _ & H).
  apply bind_Ok in H as (end_time & _ & H).
  apply bind_Ok in H as (duration & _ & H).
  apply bind_Ok in H as (primary & _ & H).
  apply bind_Ok in H as (diffs & Hdiffs & H).
  injection H as <- <-. exists timestamps, diffs. simpl. auto 10.
Qed.

Lemma composite_returned_sound (s g t o : Q) :
  composite_returned s g t o = true ->
  (py_round (Qmin 0.97 (weighted_confidence s g t o)) 4 == weighted_confidence s g t o)%Q
  /\ (0.465 <= weighted_confidence s g t o <= 0.9425)%Q.
Proof.
  unfold composite_returned. intros H.
  apply andb_prop in H as [H Hhi]. apply andb_prop in H as [Heq Hlo].
  apply Qeq_bool_iff in Heq. apply Qle_bool_iff in Hlo. apply Qle_bool_iff in Hhi.
  auto.
Qed.

Lemma attribution_confidence_composite (attack_types : list string) (country : string)
    (interval : Q) (num_attacks : Z) :
  (confidence (_attribute_threat_actor attack_types country interval num_attacks)
   == weighted_confidence (_get_signature_score attack_types)
        (_get_geographic_score country)
        (_get_timing_score interval num_attacks)
        (_get_operational_score attack_types num_attacks))%Q
  /\ (0.465 <= weighted_confidence (_get_signature_score attack_types)
                 (_get_geographic_score country)
                 (_get_timing_score interval num_attacks)
                 (_get_operational_score attack_types num_attacks) <= 0.9425)%Q.
Proof.
  rewrite attribution_confidence.
  generalize (signature_score_range attack_types) (geographic_score_range country)
    (timing_score_range interval num_attacks)
    (operational_score_range attack_types num_attacks).
  generalize (_get_signature_score attack_types) (_get_geographic_score country)
    (_get_timing_score interval num_attacks)
    (_get_operational_score attack_types num_attacks).
  intros s g t o Hs Hg Ht Ho.
  apply composite_returned_sound, composite_returned_in_range; assumption.
Qed.



(** ** The timing sub-score of a cluster (C8) *)

Lemma time_diffs_instants (timestamps : list datetime) (diffs : list Q) :
  time_diffs timestamps = Ok diffs ->
  diffs = consecutive_minutes (map instant timestamps).
Proof.
  revert diffs. induction timestamps as [| a [| b rest] IH]; intros diffs H.
  - by injection H as <-.
  - by injection H as <-.
  - change (time_diffs (a :: b :: rest))
      with (minutes_between b a ≫= fun diff =>
            time_diffs (b :: rest) ≫= fun diffs => Ok (diff :: diffs)) in H.
    apply bind_Ok in H as (diff & Hdiff & H).
    apply bind_Ok in H as (diffs' & Hdiffs' & H).
    injection H as <-. rewrite (IH _ Hdiffs').
    unfold minutes_between in Hdiff. destruct (comparable b a); [|done].
    by injection Hdiff as <-.
Qed.

Lemma Qmake_plus (x y : Z) (c : positive) : ((x # c) + (y # c) == (x + y) # c)%Q.
Proof. unfold Qeq, Qplus. simpl. nia. Qed.

Lemma last_cons_default {A : Type} (b : A) (rest : list A) (a : A) :
  List.last (b :: rest) a = List.last rest b.
Proof.
  revert a b. induction rest as [| c rest IH]; intros a b; [done|].
  change (List.last (b :: c :: rest) a) with (List.last (c :: rest) a).
  rewrite (IH a c). symmetry. apply (IH b c).
Qed.

Lemma consecutive_minutes_cons (a b : Z) (rest : list Z) :
  consecutive_minutes (a :: b :: rest)
  = ((b - a) # 60000000)%Q :: consecutive_minutes (b :: rest).
Proof. reflexivity. Qed.

(** The consecutive differences telescope: their sum is the span from the
    first to the last member. *)
Lemma consecutive_minutes_sum (a : Z) (rest : list Z) :
  (Qsum (consecutive_minutes (a :: rest)) == (List.last rest a - a) # 60000000)%Q.
Proof.
  revert a. induction rest as [| b rest IH]; intros a.
  - simpl. unfold Qeq. simpl. lia.
  - rewrite consecutive_minutes_cons. unfold Qsum. simpl fold_right.
    fold (Qsum (consecutive_minutes (b :: rest))).
    rewrite last_cons_default.
    transitivity (((b - a) # 60000000) + ((List.last rest b - b) # 60000000))%Q.
    + apply Qplus_comp; [reflexivity | apply IH].
    + etransitivity; [apply Qmake_plus|]. unfold Qeq. simpl. lia.
Qed.

Lemma merge_sort_sorted (l : list Z) : Sorted Z.le l -> merge_sort Z.le l = l.
Proof.
  intros Hsorted. apply (Sorted_unique Z.le); [| done |].
  - apply Sorted_merge_sort, _.
  - apply merge_sort_Permutation.
Qed.




(** ** Determinism of the cluster membership (C9) *)

Ltac case_bind :=
  match goal with
  | |- context [mbind _ ?r] =>
      let E := fresh "E" in destruct r eqn:E; simpl
  | |- context [Res_bind _ _ _ ?r] =>
      let E := fresh "E" in destruct r eqn:E; simpl
  end.

(** Whether a campaign can be built from a cluster, and the member ids it
    records, do not depend on the registry. *)
Lemma create_campaign_state_independent (s1 s2 : CampaignDetector)
    (attacks : list Attack.t) (ids : list string) :
  match _create_campaign s1 attacks ids, _create_campaign s2 attacks ids with
  | Ok (c1, _), Ok (c2, _) =>
      Campaign.attack_ids c1 = ids /\ Campaign.attack_ids c2 = ids
  | Raise e1, Raise e2 => e1 = e2
  | _, _ => False
  end.
Proof.
  unfold _create_campaign.
  destruct (mapM parse_timestamp attacks) as [timestamps |]; simpl; [|done].
  destruct (py_min timestamps); simpl; [|done].
  destruct (py_max timestamps); simpl; [|done].
  destruct (minutes_between _ _); simpl; [|done].
  destruct (primary_key _); simpl; [|done].
  destruct (time_diffs timestamps); simpl; done.
Qed.

Lemma form_campaigns_membership (history : list Attack.t) (ids : list string)
    (labels cluster_ids : list Z) (s1 s2 : CampaignDetector)
    (d1 d2 : list Campaign.t) :
  map Campaign.attack_ids d1 = map Campaign.attack_ids d2 ->
  membership (form_campaigns s1 history ids labels cluster_ids d1).1
  = membership (form_campaigns s2 history ids labels cluster_ids d2).1.
Proof.
  revert s1 s2 d1 d2.
  induction cluster_ids as [| cluster_id rest IH]; intros s1 s2 d1 d2 Hd; simpl.
  - by rewrite Hd.
  - destruct (cluster_id =? noise)%Z; [by apply IH|].
    destruct (mapM (getitem history) (np_where labels cluster_id))
      as [attacks | e]; simpl; [|done].
    destruct (mapM (getitem ids) (np_where labels cluster_id))
      as [cluster_ids' | e]; simpl; [|done].
    pose proof (create_campaign_state_independent s1 s2 attacks cluster_ids') as H.
    destruct (_create_campaign s1 attacks cluster_ids') as [[c1 s1'] | e1],
             (_create_campaign s2 attacks cluster_ids') as [[c2 s2'] | e2];
      simpl; try done.
    + destruct H as [H1 H2]. apply IH.
      rewrite !map_app, Hd. simpl. by rewrite H1, H2.
    + by subst.
Qed.

Lemma detect_campaigns_membership (cluster : matrix -> Z -> Res (list Z))
    (s1 s2 : CampaignDetector) (batch : list Attack.t) (min_cluster_size : Z) :
  membership (detect_campaigns_with cluster s1 batch min_cluster_size).1
  = membership (detect_campaigns_with cluster s2 batch min_cluster_size).1.
Proof.
  unfold detect_campaigns_with.
  destruct (len batch <? min_cluster_size)%Z; [done|].
  destruct (mapM feature_vector batch) as [X | e]; [|done].
  destruct (cluster X min_cluster_size) as [labels | e]; [|done].
  by apply form_campaigns_membership.
Qed.

(** C9.  Running the detection twice on the identical batch, in the same
    order, yields identical cluster membership (the member ids of the
    campaigns, in the same campaign order), whatever the detector has
    registered in between; only the campaign ids differ.  The same holds
    from any two detector states. *)
Theorem detection_membership_deterministic (cluster : matrix -> Z -> Res (list Z))
    (self other : CampaignDetector) (batch : list Attack.t) (min_cluster_size : Z) :
  let '(first, self1) := detect_campaigns_with cluster self batch min_cluster_size in
  let '(second, _) := detect_campaigns_with cluster self1 batch min_cluster_size in
  membership first = membership second
  /\ membership first
     = membership (detect_campaigns_with cluster other batch min_cluster_size).1
  /\ membership (detect_campaigns self batch min_cluster_size).1
     = membership (detect_campaigns other batch min_cluster_size).1.
Proof.
  pose proof (detect_campaigns_membership cluster self) as Hself.
  destruct (detect_campaigns_with cluster self batch min_cluster_size)
    as [first self1] eqn:Hfirst.
  pose proof (Hself self1 batch min_cluster_size) as H1.
  pose proof (Hself other batch min_cluster_size) as H2.
  rewrite Hfirst in H1, H2. simpl in H1, H2.
  destruct (detect_campaigns_with cluster self1 batch min_cluster_size)
    as [second self2].
  split; [exact H1 | split; [exact H2|]].
  apply detect_campaigns_membership.
Qed.

(** ** Failure of feature extraction (C7) *)

Lemma fromisoformat_raises (date_string : string) (e : PyError) :
  fromisoformat date_string = Raise e -> e = ValueError.
Proof.
  unfold fromisoformat.
  repeat match goal with
         | |- context [match ?x with _ => _ end] => destruct x
         end; congruence.
Qed.

Lemma create_attack_features_raises (attack : Attack.t) (e : PyError) :
  create_attack_features attack = Raise e <-> parse_timestamp attack = Raise e.
Proof.
  unfold create_attack_features.
  destruct (parse_timestamp attack); simpl; split; congruence.
Qed.

Lemma feature_vector_raises (attack : Attack.t) (e : PyError) :
  feature_vector attack = Raise e <-> parse_timestamp attack = Raise e.
Proof.
  rewrite <- create_attack_features_raises. unfold feature_vector.
  destruct (create_attack_features attack); simpl; split; congruence.
Qed.

Lemma feature_vector_Ok (attack : Attack.t) (d : datetime) :
  parse_timestamp attack = Ok d ->
  exists row, feature_vector attack = Ok row /\ length row = 8
    /\ row !! 0 = Some (inject_Z (hour d))
    /\ row !! 1 = Some (inject_Z (weekday d)).
Proof.
  intros Hd. unfold feature_vector, create_attack_features. rewrite Hd. simpl.
  eexists. repeat split; reflexivity.
Qed.

Lemma mapM_feature_vector_raises (batch : list Attack.t) (attack : Attack.t) :
  attack ∈ batch ->
  (exists e, parse_timestamp attack = Raise e) ->
  mapM feature_vector batch = Raise ValueError.
Proof.
  intros Hin [e He]. induction batch as [| a batch IH]; [by apply elem_of_nil in Hin|].
  simpl. destruct (feature_vector a) as [row | e'] eqn:Ha; simpl.
  - apply elem_of_cons in Hin as [-> | Hin].
    + apply feature_vector_raises in He. congruence.
    + by rewrite (IH Hin).
  - apply feature_vector_raises, fromisoformat_raises in Ha. by subst.
Qed.

(** C7 (as the code has it).  Feature extraction is a function of the one
    event; it fails exactly when [datetime.fromisoformat] rejects the
    timestamp (with every [Z] replaced by [+00:00]), with [ValueError], and
    otherwise returns the eight features.  Nothing rejects the event: a
    detection run over a batch that holds it (and is large enough) raises
    [ValueError] and leaves the registry as it was, and the route answers
    with an error and leaves the history, the event included, unchanged. *)
Theorem malformed_timestamp_fails_run (cluster : matrix -> Z -> Res (list Z))
    (self : CampaignDetector) (batch : list Attack.t) (min_cluster_size : Z)
    (attack : Attack.t) :
  attack ∈ batch ->
  (min_cluster_size <= len batch)%Z ->
  (exists e, create_attack_features attack = Raise e) ->
  (forall a e, create_attack_features a = Raise e
               <-> fromisoformat (replace_Z (Attack.timestamp a)) = Raise e)
  /\ (forall a d, fromisoformat (replace_Z (Attack.timestamp a)) = Ok d ->
        exists row, feature_vector a = Ok row /\ length row = 8)
  /\ create_attack_features attack = Raise ValueError
  /\ detect_campaigns_with cluster self batch min_cluster_size = (Raise ValueError, self)
  /\ ((50 <= len batch)%Z ->
      let g := {| attack_history := batch; campaign_detector := self |} in
      get_campaigns_with cluster g = (ServerError ValueError, g)
      /\ attack ∈ attack_history (get_campaigns_with cluster g).2).
Proof.
  intros Hin Hmin [e He].
  assert (Hparse : exists e, parse_timestamp attack = Raise e)
    by (exists e; by apply create_attack_features_raises).
  assert (Hdetect : forall m, (m <= len batch)%Z ->
            detect_campaigns_with cluster self batch m = (Raise ValueError, self)).
  { intros m Hm. unfold detect_campaigns_with.
    destruct (Z.ltb_spec (len batch) m); [lia|].
    by rewrite (mapM_feature_vector_raises batch attack Hin Hparse). }
  split; [apply create_attack_features_raises|].
  split.
  { intros a d Hd. destruct (feature_vector_Ok a d Hd) as (row & ? & ? & _). eauto. }
  split.
  { pose proof He as He'. apply create_attack_features_raises, fromisoformat_raises in He'.
    by subst. }
  split; [by apply Hdetect|].
  intros Hfifty g.
  assert (Hg : get_campaigns_with cluster g = (ServerError ValueError, g)).
  { unfold get_campaigns_with, g. simpl.
    destruct (Z.ltb_spec (len batch) 50); [lia|].
    by rewrite (Hdetect 3%Z) by lia. }
  split; [exact Hg|]. rewrite Hg. exact Hin.
Qed.

Lemma malformed_timestamp_fails_run_witness :
  malformed_attack ∈ history_with_malformed
  /\ (3 <= len history_with_malformed)%Z
  /\ create_attack_features malformed_attack = Raise ValueError
  /\ detect_campaigns new_detector history_with_malformed 3
     = (Raise ValueError, new_detector).
Proof.
  assert (Hin : malformed_attack ∈ history_with_malformed).
  { unfold history_with_malformed. apply elem_of_app. right. apply list_elem_of_here. }
  assert (Hlen : (3 <= len history_with_malformed)%Z) by (vm_compute; discriminate).
  assert (Hfail : exists e, create_attack_features malformed_attack = Raise e)
    by (exists ValueError; vm_compute; reflexivity).
  destruct (malformed_timestamp_fails_run sklearn_cluster new_detector
              history_with_malformed 3 malformed_attack Hin Hlen Hfail)
    as (_ & _ & Hraise & Hrun & _).
  auto.
Defined.

(** C7 as stated fails: the event whose timestamp is "yesterday at noon"
    fails feature extraction, yet appending stores it, and a request to the
    route over a history of fifty events that holds it fails as a whole and
    leaves it stored. *)
Lemma malformed_event_stays_stored :
  create_attack_features malformed_attack = Raise ValueError
  /\ append_attack [] malformed_attack = [malformed_attack]
  /\ len history_with_malformed = 50%Z
  /\ get_campaigns globals_with_malformed = (ServerError ValueError, globals_with_malformed)
  /\ malformed_attack ∈ attack_history (get_campaigns globals_with_malformed).2.
Proof.
  assert (Hroute : get_campaigns globals_with_malformed
                   = (ServerError ValueError, globals_with_malformed))
    by (vm_compute; reflexivity).
  split; [vm_compute; reflexivity|].
  split; [vm_compute; reflexivity|].
  split; [vm_compute; reflexivity|].
  split; [exact Hroute|].
  rewrite Hroute. simpl. unfold history_with_malformed.
  apply elem_of_app. right. apply list_elem_of_here.
Qed.

(** ** Campaign ids (C5) *)

Lemma parse_decimal_zeros (k : nat) (s : string) :
  parse_decimal (string_of_list_ascii (replicate k "0"%char) +:+ s) = parse_decimal s.
Proof.
  induction k as [| k IH]; [done|].
  unfold parse_decimal in *. simpl.
  destruct (NilEmpty.uint_of_string (string_of_list_ascii (replicate k "0"%char) +:+ s)),
           (NilEmpty.uint_of_string s); simpl in *; congruence.
Qed.

Lemma parse_decimal_str_N (n : N) : parse_decimal (str_N n) = Some n.
Proof.
  unfold parse_decimal, str_N. rewrite NilEmpty.usu. simpl.
  by rewrite DecimalN.Unsigned.of_to.
Qed.

Lemma parse_decimal_format_04d (k : Z) :
  (0 <= k)%Z -> parse_decimal (format_04d k) = Some (Z.to_N k).
Proof.
  intros Hk. unfold format_04d. destruct (Z.ltb_spec k 0); [lia|].
  unfold zfill. by rewrite parse_decimal_zeros, parse_decimal_str_N.
Qed.

Lemma format_campaign_id_inj (j k : Z) :
  (0 <= j)%Z -> (0 <= k)%Z -> format_campaign_id j = format_campaign_id k -> j = k.
Proof.
  intros Hj Hk Heq. unfold format_campaign_id in Heq.
  apply (inj (String.app "CAMPAIGN_")) in Heq.
  pose proof (parse_decimal_format_04d j Hj) as Pj.
  pose proof (parse_decimal_format_04d k Hk) as Pk.
  rewrite Heq in Pj. rewrite Pj in Pk. injection Pk as Pk. lia.
Qed.

Lemma format_04d_width_below_10000 (k : Z) :
  (0 <= k <= 9999)%Z -> String.length (format_04d k) = 4.
Proof.
  intros Hk.
  assert (Hall : forallb (fun k => Nat.eqb (String.length (format_04d k)) 4) (seqZ 0 10000) = true)
    by (vm_compute; reflexivity).
  rewrite forallb_forall in Hall.
  apply Nat.eqb_eq, Hall, list_elem_of_In, elem_of_seqZ. lia.
Qed.

Lemma foldl_assign_campaign (id : string) (ids : list string) (self : CampaignDetector) :
  campaigns (foldl (assign_campaign id) self ids) = campaigns self
  /\ next_campaign_id (foldl (assign_campaign id) self ids) = next_campaign_id self.
Proof.
  revert self. induction ids as [| a ids IH]; intros self; [done|].
  simpl. destruct (IH (assign_campaign id self a)) as [-> ->]. done.
Qed.

Lemma registry_ids_fresh (self : CampaignDetector) :
  (1 <= next_campaign_id self)%Z -> registry_ids self ->
  campaigns self !! format_campaign_id (next_campaign_id self) = None.
Proof.
  intros Hone Hreg. apply eq_None_not_Some. intros Hsome.
  apply Hreg in Hsome as (k & Hk & Heq).
  apply format_campaign_id_inj in Heq; lia.
Qed.

Lemma registry_ids_insert (self : CampaignDetector) (c : Campaign.t)
    (a2c : gmap string string) :
  (1 <= next_campaign_id self)%Z -> registry_ids self ->
  registry_ids
    {| campaigns := <[format_campaign_id (next_campaign_id self) := c]> (campaigns self);
       attack_to_campaign := a2c;
       next_campaign_id := (next_campaign_id self + 1)%Z |}.
Proof.
  intros Hone Hreg id. simpl. rewrite lookup_insert_is_Some. split.
  - intros [<- | [_ Hsome]].
    + exists (next_campaign_id self). split; [lia | done].
    + apply Hreg in Hsome as (k & Hk & ->). exists k. split; [lia | done].
  - intros (k & Hk & ->).
    destruct (decide (k = next_campaign_id self)) as [-> | Hne]; [by left|].
    right. split.
    + intros Heq. apply format_campaign_id_inj in Heq; lia.
    + apply Hreg. exists k. split; [lia | done].
Qed.

(** What one pass of the campaign loop does to the counter and the registry. *)
Lemma form_campaigns_counter (history : list Attack.t) (ids : list string)
    (labels cluster_ids : list Z) (self : CampaignDetector)
    (detected : list Campaign.t) :
  (1 <= next_campaign_id self)%Z -> registry_ids self ->
  let '(result, self') := form_campaigns self history ids labels cluster_ids detected in
  (next_campaign_id self <= next_campaign_id self')%Z
  /\ registry_ids self'
  /\ campaigns self ⊆ campaigns self'
  /\ match result with
     | Ok returned =>
         exists new, returned = detected ++ new
           /\ map Campaign.campaign_id new
              = map format_campaign_id (seqZ (next_campaign_id self) (len new))
           /\ next_campaign_id self' = (next_campaign_id self + len new)%Z
           /\ Forall (fun c => campaigns self' !! Campaign.campaign_id c = Some c) new
     | Raise _ => True
     end.
Proof.
  revert self detected.
  induction cluster_ids as [| cluster_id rest IH]; intros self detected Hone Hreg; simpl.
  - split; [lia | split; [done | split; [done|]]].
    exists []. rewrite app_nil_r. unfold len. simpl.
    split; [done | split; [done | split; [lia | constructor]]].
  - destruct (cluster_id =? noise)%Z; [by apply IH|].
    destruct (mapM (getitem history) (np_where labels cluster_id))
      as [attacks | e]; simpl; [| by (split; [lia|])].
    destruct (mapM (getitem ids) (np_where labels cluster_id))
      as [member_ids | e]; simpl; [| by (split; [lia|])].
    destruct (_create_campaign self attacks member_ids) as [[c self1] | e] eqn:Hc;
      [| by (split; [lia|])].
    apply create_campaign_attribution in Hc
      as (_ & _ & _ & _ & _ & _ & Hid & _ & ->).
    rewrite Hid.
    set (self1 := {| campaigns := _; attack_to_campaign := _; next_campaign_id := _ |}).
    destruct (foldl_assign_campaign (format_campaign_id (next_campaign_id self))
                (Campaign.attack_ids c) self1) as [Hcamp Hnext].
    set (self2 := foldl _ self1 _) in *.
    assert (Hreg1 : registry_ids self1) by (by apply registry_ids_insert).
    assert (Hreg2 : registry_ids self2).
    { intros id. rewrite Hcamp, Hnext. apply Hreg1. }
    assert (Hone2 : (1 <= next_campaign_id self2)%Z) by (rewrite Hnext; simpl; lia).
    specialize (IH self2 (detected ++ [c]) Hone2 Hreg2).
    destruct (form_campaigns self2 history ids labels rest (detected ++ [c]))
      as [result self'].
    destruct IH as (Hle & Hreg' & Hsub & Hres).
    rewrite Hnext in Hle. simpl in Hle.
    assert (Hsub1 : campaigns self ⊆ campaigns self').
    { etransitivity; [| exact Hsub]. rewrite Hcamp. simpl.
      by apply insert_subseteq, registry_ids_fresh. }
    split; [lia | split; [done | split; [done|]]].
    destruct result as [returned | e]; [|done].
    destruct Hres as (new & -> & Hids & Hnext' & Hstored).
    rewrite Hnext in Hids, Hnext'. simpl in Hids, Hnext'.
    exists (c :: new). split; [by rewrite <- app_assoc|].
    assert (Hlen : len (c :: new) = (1 + len new)%Z) by (unfold len; simpl; lia).
    split; [| split].
    + rewrite Hlen, seqZ_cons by (unfold len; lia). simpl. rewrite Hid. f_equal.
      rewrite Hids. do 2 f_equal; lia.
    + rewrite Hlen. lia.
    + constructor; [| done]. rewrite Hid.
      eapply lookup_weaken; [| exact Hsub]. rewrite Hcamp. simpl.
      apply lookup_insert_eq.
Qed.

Lemma detect_campaigns_counter (cluster : matrix -> Z -> Res (list Z))
    (self : CampaignDetector) (batch : list Attack.t) (min_cluster_size : Z) :
  (1 <= next_campaign_id self)%Z -> registry_ids self ->
  let '(result, self') := detect_campaigns_with cluster self batch min_cluster_size in
  (next_campaign_id self <= next_campaign_id self')%Z
  /\ registry_ids self'
  /\ campaigns self ⊆ campaigns self'
  /\ match result with
     | Ok new =>
         map Campaign.campaign_id new
         = map format_campaign_id (seqZ (next_campaign_id self) (len new))
         /\ next_campaign_id self' = (next_campaign_id self + len new)%Z
         /\ Forall (fun c => campaigns self' !! Campaign.campaign_id c = Some c) new
     | Raise _ => True
     end.
Proof.
  intros Hone Hreg. unfold detect_campaigns_with.
  assert (Hnil : (next_campaign_id self <= next_campaign_id self)%Z
                 /\ registry_ids self /\ campaigns self ⊆ campaigns self) by (split; [lia | done]).
  destruct (len batch <? min_cluster_size)%Z.
  { destruct Hnil as (? & ? & ?). unfold len. simpl.
    split; [done | split; [done | split; [done | split; [done | split; [lia | constructor]]]]]. }
  destruct (mapM feature_vector batch) as [X | e]; [| by destruct Hnil as (? & ? & ?)].
  destruct (cluster X min_cluster_size) as [labels | e]; [| by destruct Hnil as (? & ? & ?)].
  pose proof (form_campaigns_counter batch (map Attack.id batch) labels
                (label_set labels) self [] Hone Hreg) as H.
  destruct (form_campaigns self batch (map Attack.id batch) labels (label_set labels) [])
    as [result self'].
  destruct H as (Hle & Hreg' & Hsub & Hres).
  split; [done | split; [done | split; [done|]]].
  destruct result as [returned | e]; [|done].
  destruct Hres as (new & Heq & ? & ? & ?). simpl in Heq. subst returned. done.
Qed.

Lemma StronglySorted_lt_NoDup (l : list Z) : StronglySorted Z.lt l -> NoDup l.
Proof.
  induction 1 as [| a l Hl IH Ha]; constructor; [|done].
  intros Hin. rewrite Forall_forall in Ha. specialize (Ha a Hin). lia.
Qed.

Lemma StronglySorted_seqZ (m n : Z) : StronglySorted Z.lt (seqZ m n).
Proof.
  destruct (decide (0 <= n)%Z) as [Hn | Hn].
  - revert m. pattern n. apply natlike_ind; [| | done].
    + intros m. constructor.
    + intros k Hk IH m. rewrite seqZ_cons by lia.
      replace (Z.pred (Z.succ k)) with k by lia.
      constructor; [apply IH|]. apply Forall_forall. intros x Hx.
      apply elem_of_seqZ in Hx. lia.
  - unfold seqZ. replace (Z.to_nat n) with 0%nat by lia. constructor.
Qed.

(** Any number of detection runs, one after the other. *)
Lemma run_detections_counter (cluster : matrix -> Z -> Res (list Z))
    (runs : list (list Attack.t * Z)) (self : CampaignDetector) :
  (1 <= next_campaign_id self)%Z -> registry_ids self ->
  let '(created, self') := run_detections cluster self runs in
  (next_campaign_id self <= next_campaign_id self')%Z
  /\ registry_ids self'
  /\ campaigns self ⊆ campaigns self'
  /\ Forall (fun c => campaigns self' !! Campaign.campaign_id c = Some c) created
  /\ exists numbers,
       map Campaign.campaign_id created = map format_campaign_id numbers
       /\ StronglySorted Z.lt numbers
       /\ Forall (fun k => (next_campaign_id self <= k < next_campaign_id self')%Z) numbers.
Proof.
  revert self. induction runs as [| [batch min_attacks] rest IH]; intros self Hone Hreg.
  - simpl. split; [lia | split; [done | split; [done | split; [constructor|]]]].
    exists []. repeat constructor.
  - simpl.
    pose proof (detect_campaigns_counter cluster self batch min_attacks Hone Hreg) as H.
    destruct (detect_campaigns_with cluster self batch min_attacks) as [result self1].
    destruct H as (Hle1 & Hreg1 & Hsub1 & Hres).
    specialize (IH self1 ltac:(lia) Hreg1).
    destruct (run_detections cluster self1 rest) as [later self2].
    destruct IH as (Hle2 & Hreg2 & Hsub2 & Hstored2 & numbers2 & Hids2 & Hsorted2 & Hrange2).
    split; [lia | split; [done | split; [by etransitivity|]]].
    destruct result as [new | e].
    + destruct Hres as (Hids1 & Hnext1 & Hstored1). split.
      * apply Forall_app. split; [| done].
        eapply Forall_impl; [exact Hstored1|]. intros c Hc. simpl in Hc.
        by eapply lookup_weaken.
      * exists (seqZ (next_campaign_id self) (len new) ++ numbers2).
        rewrite !map_app, Hids1, Hids2. split; [done|]. split.
        -- apply StronglySorted_app_2; [| apply StronglySorted_seqZ | done].
           intros x y Hx Hy. apply elem_of_seqZ in Hx.
           rewrite Forall_forall in Hrange2. specialize (Hrange2 y Hy). lia.
        -- apply Forall_app. split.
           ++ apply Forall_forall. intros x Hx. apply elem_of_seqZ in Hx. lia.
           ++ eapply Forall_impl; [exact Hrange2|]. intros k Hk. simpl in Hk. lia.
    + simpl. split; [done|]. exists numbers2. split; [done | split; [done|]].
      eapply Forall_impl; [exact Hrange2|]. intros k Hk. simpl in Hk. lia.
Qed.

Lemma registry_ids_new_detector : registry_ids new_detector.
Proof.
  intros id. simpl. rewrite lookup_empty. split.
  - intros [? ?]. done.
  - intros (k & Hk & _). lia.
Qed.

(** C5 (as the code has it).  Over any sequence of detection runs on one
    detector, the campaigns returned carry the ids [CAMPAIGN_] followed by
    strictly increasing counters (allocated from 1, one per campaign), the id
    strings are pairwise distinct, every returned campaign is still
    registered under its id, and the registry keys are exactly the ids
    allocated so far.  The numeric suffix is zero-padded to at least four
    digits: exactly four up to 9999, and formatting is injective on counters
    (so distinct counters never collide). *)
Theorem campaign_ids_increasing_unique (cluster : matrix -> Z -> Res (list Z))
    (runs : list (list Attack.t * Z)) :
  let '(created, self) := run_detections cluster new_detector runs in
  (exists numbers,
      map Campaign.campaign_id created = map format_campaign_id numbers
      /\ StronglySorted Z.lt numbers
      /\ Forall (fun k => (1 <= k < next_campaign_id self)%Z) numbers)
  /\ NoDup (map Campaign.campaign_id created)
  /\ Forall (fun c => campaigns self !! Campaign.campaign_id c = Some c) created
  /\ registry_ids self
  /\ (forall j k, (0 <= j)%Z -> (0 <= k)%Z ->
        format_campaign_id j = format_campaign_id k -> j = k)
  /\ (forall k, (0 <= k <= 9999)%Z -> String.length (format_04d k) = 4).
Proof.
  pose proof (run_detections_counter cluster runs new_detector ltac:(simpl; lia)
                registry_ids_new_detector) as H.
  destruct (run_detections cluster new_detector runs) as [created self].
  destruct H as (_ & Hreg & _ & Hstored & numbers & Hids & Hsorted & Hrange).
  simpl in Hrange.
  split; [by exists numbers|].
  split.
  { rewrite Hids. apply NoDup_fmap_2_strong; [| by apply StronglySorted_lt_NoDup].
    intros x y Hx Hy. rewrite Forall_forall in Hrange.
    pose proof (Hrange x Hx). pose proof (Hrange y Hy).
    apply format_campaign_id_inj; lia. }
  split; [done | split; [done | split]].
  - apply format_campaign_id_inj.
  - apply format_04d_width_below_10000.
Qed.

(** The five-event batch yields exactly one campaign from any detector. *)
Lemma five_ddos_one_campaign (self : CampaignDetector) :
  (1 <= next_campaign_id self)%Z -> registry_ids self ->
  exists c self',
    detect_campaigns self five_ddos 3 = (Ok [c], self')
    /\ Campaign.campaign_id c = format_campaign_id (next_campaign_id self)
    /\ next_campaign_id self' = (next_campaign_id self + 1)%Z
    /\ registry_ids self'.
Proof.
  intros Hone Hreg.
  pose proof (detect_campaigns_membership sklearn_cluster self new_detector five_ddos 3) as Hm.
  pose proof (detect_campaigns_counter sklearn_cluster self five_ddos 3 Hone Hreg) as Hc.
  unfold detect_campaigns.
  destruct (detect_campaigns_with sklearn_cluster self five_ddos 3) as [result self'].
  assert (Hnew : membership (detect_campaigns_with sklearn_cluster new_detector five_ddos 3).1
                 = Ok [map Attack.id five_ddos]) by (vm_compute; reflexivity).
  rewrite Hnew in Hm. cbn [fst] in Hm.
  destruct result as [cs | e]; [| discriminate Hm].
  cbn [membership] in Hm. injection Hm as Hm.
  destruct cs as [| c [| c' cs]]; [discriminate Hm | | discriminate Hm].
  destruct Hc as (_ & Hreg' & _ & Hids & Hnext & _).
  exists c, self'. unfold len in Hids, Hnext. simpl in Hids, Hnext.
  injection Hids as Hid. auto.
Qed.

Lemma repeated_runs_ids (n : nat) (self : CampaignDetector) :
  (1 <= next_campaign_id self)%Z -> registry_ids self ->
  map Campaign.campaign_id
      (run_detections sklearn_cluster self (replicate n (five_ddos, 3%Z))).1
  = map format_campaign_id (seqZ (next_campaign_id self) (Z.of_nat n)).
Proof.
  revert self. induction n as [| n IH]; intros self Hone Hreg; [done|].
  destruct (five_ddos_one_campaign self Hone Hreg) as (c & self' & Hrun & Hid & Hnext & Hreg').
  unfold detect_campaigns in Hrun.
  change (replicate (S n) (five_ddos, 3%Z))
    with ((five_ddos, 3%Z) :: replicate n (five_ddos, 3%Z)).
  cbn [run_detections]. rewrite Hrun.
  specialize (IH self' ltac:(lia) Hreg').
  destruct (run_detections sklearn_cluster self' (replicate n (five_ddos, 3%Z)))
    as [later self2].
  cbn [fst app map] in *. rewrite Hid, IH, Hnext.
  rewrite (seqZ_cons (next_campaign_id self)) by lia. cbn [map].
  do 3 f_equal; lia.
Qed.

(** C5 as stated fails on the width and on the order of the id strings: the
    run that follows 9999 created campaigns allocates [CAMPAIGN_10000], one
    character longer than [CAMPAIGN_9999] and before it in string order. *)
Lemma campaign_id_width_grows :
  let ids := map Campaign.campaign_id
               (run_detections sklearn_cluster new_detector
                  (replicate (Z.to_nat 10000) (five_ddos, 3%Z))).1 in
  ids !! Z.to_nat 9998 = Some "CAMPAIGN_9999"
  /\ ids !! Z.to_nat 9999 = Some "CAMPAIGN_10000"
  /\ String.length (format_04d 9999) = 4
  /\ String.length (format_04d 10000) = 5
  /\ String.ltb "CAMPAIGN_10000" "CAMPAIGN_9999" = true.
Proof.
  intros ids. unfold ids.
  rewrite (repeated_runs_ids (Z.to_nat 10000) new_detector ltac:(simpl; lia)
             registry_ids_new_detector).
  change (next_campaign_id new_detector) with 1%Z.
  split; [| split; [| split; [vm_compute; reflexivity
                             | split; vm_compute; reflexivity]]].
  - change (map format_campaign_id ?l) with (format_campaign_id <$> l).
    rewrite list_lookup_fmap, lookup_seqZ_lt by lia. vm_compute. reflexivity.
  - change (map format_campaign_id ?l) with (format_campaign_id <$> l).
    rewrite list_lookup_fmap, lookup_seqZ_lt by lia. vm_compute. reflexivity.
Qed.

(** ** The clustering loop *)

Lemma label_of_insert_eq (labels : list Z) (i : nat) (x : Z) :
  i < length labels -> label_of (<[i := x]> labels) i = x.
Proof. intros Hi. unfold label_of. by rewrite list_lookup_insert_eq. Qed.

Lemma label_of_insert_ne (labels : list Z) (i j : nat) (x : Z) :
  i <> j -> label_of (<[i := x]> labels) j = label_of labels j.
Proof. intros Hne. unfold label_of. by rewrite list_lookup_insert_ne. Qed.

Lemma filter_length_lt {A : Type} (P Q : A -> Prop)
    `{!forall x, Decision (P x)} `{!forall x, Decision (Q x)} (l : list A) (x0 : A) :
  (forall x, P x -> Q x) -> x0 ∈ l -> Q x0 -> ~ P x0 ->
  length (filter P l) < length (filter Q l).
Proof.
  intros Himp Hin HQ HnP. induction l as [| a l IH]; [by apply elem_of_nil in Hin|].
  assert (Hle : forall l', length (filter P l') <= length (filter Q l')).
  { intros l'. induction l' as [| b l' IH']; [done|].
    rewrite !filter_cons. destruct (decide (P b)) as [HP | HP].
    - rewrite decide_True by auto. simpl. lia.
    - destruct (decide (Q b)); simpl; lia. }
  rewrite !filter_cons. apply elem_of_cons in Hin as [<- | Hin].
  - rewrite decide_False, decide_True by done. simpl. specialize (Hle l). lia.
  - specialize (IH Hin). destruct (decide (P a)) as [HP | HP].
    + rewrite decide_True by auto. simpl. lia.
    + destruct (decide (Q a)); simpl; lia.
Qed.

Lemma unlabelled_insert (n : nat) (labels : list Z) (i : nat) (k : Z) :
  i < n -> length labels = n -> label_of labels i = noise -> k <> noise ->
  length (unlabelled n (<[i := k]> labels)) < length (unlabelled n labels).
Proof.
  intros Hi Hlen Hnoise Hk. unfold unlabelled.
  apply (filter_length_lt _ _ _ i).
  - intros u Hu. destruct (decide (i = u)) as [<- | Hne]; [done|].
    by rewrite label_of_insert_ne in Hu.
  - apply elem_of_seq. lia.
  - done.
  - rewrite label_of_insert_eq by lia. done.
Qed.

Lemma dbscan_expand_unfold (fuel : nat) (core_samples : list bool)
    (neighborhoods : list (list nat)) (k : Z) (i : nat) (stack : list nat)
    (labels : list Z) :
  dbscan_expand (S fuel) core_samples neighborhoods k i stack labels
  = let '(labels1, stack1) := dbscan_visit core_samples neighborhoods k i stack labels in
    match stack1 with
    | [] => Some labels1
    | top :: stack2 => dbscan_expand fuel core_samples neighborhoods k top stack2 labels1
    end.
Proof. reflexivity. Qed.

Section Walk.

Variable n : nat.
Variable core_samples : list bool.
Variable neighborhoods : list (list nat).

Hypothesis neighbors_sym : forall p v,
  v ∈ neighbors_of neighborhoods p -> p ∈ neighbors_of neighborhoods v.
Hypothesis neighbors_bound : forall p v, v ∈ neighbors_of neighborhoods p -> v < n.
Hypothesis neighbors_length : forall p, length (neighbors_of neighborhoods p) <= n.

#[local] Abbreviation lab := label_of.
#[local] Abbreviation is_core := (is_core_at core_samples).
#[local] Abbreviation nbrs := (neighbors_of neighborhoods).

Lemma between_walks_start (k : Z) (labels : list Z) (i : nat) :
  between_walks n core_samples neighborhoods k labels ->
  i < n -> is_core i = true ->
  expanding n core_samples neighborhoods k labels [i].
Proof.
  intros (Hlen & Hk & Hbelow & Hclosed & Hagree & Hanch) Hi Hcore.
  split; [done|]. split; [by constructor|]. split; [done|].
  split. { intros u. destruct (Hbelow u); [by left | right; lia]. }
  split; [done|]. split.
  { intros p v _ Hp _. destruct (Hbelow p) as [Hn | Hr]; [| lia].
    rewrite Hp in Hn. unfold noise in Hn. lia. }
  split; [done|]. split; [done|].
  intros x Hx. apply list_elem_of_singleton in Hx as ->. by left.
Qed.

Lemma expanding_done (k : Z) (labels : list Z) :
  expanding n core_samples neighborhoods k labels [] ->
  between_walks n core_samples neighborhoods (k + 1) labels.
Proof.
  intros (Hlen & _ & Hk & Hbelow & Hclosed & Hpend & Hagree & Hanch & _).
  split; [done|]. split; [lia|]. split; [done|]. split; [| done].
  intros p v Hcore Hp Hlt Hv.
  destruct (decide (lab labels p = k)) as [Heq | Hne].
  - destruct (Hpend p v Hcore Heq Hv) as [? | Hin]; [done|]. by apply elem_of_nil in Hin.
  - apply (Hclosed p v Hcore Hp); [lia | done].
Qed.

Lemma label_of_insert (labels : list Z) (i u : nat) (k : Z) :
  i < length labels ->
  lab (<[i := k]> labels) u = if decide (u = i) then k else lab labels u.
Proof.
  intros Hi. destruct (decide (u = i)) as [-> | Hne].
  - by apply label_of_insert_eq.
  - by apply label_of_insert_ne.
Qed.

(** Labelling the visited sample keeps what does not depend on the stack. *)
Lemma label_visited (k : Z) (labels : list Z) (i : nat) (stack : list nat) :
  expanding n core_samples neighborhoods k labels (i :: stack) ->
  lab labels i = noise ->
  let labels1 := <[i := k]> labels in
  length labels1 = n
  /\ (forall u, lab labels1 u = if decide (u = i) then k else lab labels u)
  /\ labels_below labels1 (k + 1)
  /\ clusters_closed core_samples neighborhoods labels1 k
  /\ cores_agree core_samples neighborhoods labels1
  /\ anchored core_samples neighborhoods labels1
  /\ extends labels labels1.
Proof.
  intros (Hlen & Htodo & Hk & Hbelow & Hclosed & Hpend & Hagree & Hanch & Hreach) Hi labels1.
  assert (Hin : i < n) by (by apply Forall_cons in Htodo as [? _]).
  assert (Hlab : forall u, lab labels1 u = if decide (u = i) then k else lab labels u).
  { intros u. apply label_of_insert. lia. }
  assert (Hknoise : k <> noise) by (unfold noise; lia).
  split; [by unfold labels1; rewrite length_insert|]. split; [done|].
  split.
  { intros u. rewrite Hlab. destruct (decide (u = i)); [right; lia | apply Hbelow]. }
  split.
  { intros p v Hcore Hp Hlt Hv. rewrite Hlab in Hp, Hlt. rewrite Hlab.
    destruct (decide (p = i)); [lia|]. destruct (decide (v = i)); [done|].
    by apply (Hclosed p v). }
  split.
  { intros p v Hp Hv Hnb Hlp Hlv. rewrite !Hlab in *.
    assert (Hside : forall a b, is_core a = true -> b ∈ nbrs a -> a <> i -> b = i ->
                      lab labels a <> noise -> lab labels a = k).
    { intros a b Ha Hb Hai -> Hla.
      destruct (Hbelow a) as [? | Hr]; [done|].
      destruct (decide (lab labels a < k)%Z) as [Hlt | ?]; [| lia].
      by destruct (Hclosed a i Ha Hla Hlt Hb). }
    destruct (decide (p = i)) as [-> | Hpi], (decide (v = i)) as [-> | Hvi]; try done.
    - symmetry. apply (Hside v i); auto.
    - apply (Hside p i); auto.
    - by apply Hagree. }
  split.
  { intros u Hu. rewrite Hlab in Hu. destruct (decide (u = i)) as [-> | Hne].
    - destruct (Hreach i) as [? | (c & Hc & Hcc & Hlc)]; [apply list_elem_of_here | by left |].
      right. exists c. rewrite !Hlab.
      split; [done | split; [done|]].
      destruct (decide (i = i)); [| done]. by destruct (decide (c = i)).
    - destruct (Hanch u Hu) as [? | (c & Hc & Hcc & Hlc)]; [by left|].
      right. exists c. rewrite !Hlab.
      split; [done | split; [done|]].
      destruct (decide (u = i)); [done|].
      destruct (decide (c = i)) as [-> | ?]; [| done]. congruence. }
  intros u Hu. rewrite Hlab. destruct (decide (u = i)) as [-> | ?]; [done | done].
Qed.

Lemma elem_of_rev {A : Type} (x : A) (l : list A) : x ∈ rev l <-> x ∈ l.
Proof. rewrite !list_elem_of_In. symmetry. apply in_rev. Qed.

(** One pass of the loop keeps the invariant of the walk, keeps the labels
    already given, labels the visited sample and decreases the measure. *)
Lemma visit_step (k : Z) (labels : list Z) (i : nat) (stack : list nat)
    (labels1 : list Z) (stack1 : list nat) :
  expanding n core_samples neighborhoods k labels (i :: stack) ->
  dbscan_visit core_samples neighborhoods k i stack labels = (labels1, stack1) ->
  expanding n core_samples neighborhoods k labels1 stack1
  /\ extends labels labels1
  /\ lab labels1 i <> noise
  /\ potential n labels1 stack1 < potential n labels (i :: stack).
Proof.
  intros Hexp Hvisit.
  pose proof Hexp as (Hlen & Htodo & Hk & Hbelow & Hclosed & Hpend & Hagree & Hanch & Hreach).
  apply Forall_cons in Htodo as [Hin Hstack].
  assert (Hknoise : k <> noise) by (unfold noise; lia).
  unfold dbscan_visit in Hvisit.
  destruct (Z.eqb_spec (lab labels i) noise) as [Hi | Hi].
  - destruct (label_visited k labels i stack Hexp Hi)
      as (Hlen1 & Hlab & Hbelow1 & Hclosed1 & Hagree1 & Hanch1 & Hext).
    assert (Hi1 : lab (<[i := k]> labels) i <> noise).
    { rewrite Hlab. by destruct (decide (i = i)). }
    assert (Hkeep : forall c, lab labels c = k -> lab (<[i := k]> labels) c = k).
    { intros c Hc. rewrite Hlab. by destruct (decide (c = i)). }
    assert (Hnn : forall v, lab labels v <> noise -> lab (<[i := k]> labels) v <> noise).
    { intros v Hv. rewrite Hlab. by destruct (decide (v = i)). }
    assert (Hreach1 : forall x, x ∈ stack ->
              is_core x = true
              \/ exists c, c ∈ nbrs x /\ is_core c = true /\ lab (<[i := k]> labels) c = k).
    { intros x Hx. destruct (Hreach x) as [? | (c & Hc & Hcc & Hlc)];
        [by apply list_elem_of_further | by left |].
      right. exists c. auto. }
    pose proof (unlabelled_insert n labels i k Hin Hlen Hi Hknoise) as Hdrop.
    destruct (is_core i) eqn:Hcore; injection Hvisit as <- <-.
    + split; [| split; [done | split; [done|]]].
      * split; [done|]. split.
        { apply Forall_app. split; [| done]. apply Forall_forall. intros x Hx.
          apply elem_of_rev, list_elem_of_filter in Hx as [_ Hx]. by apply (neighbors_bound i). }
        split; [done|]. split; [done|]. split; [done|]. split.
        { intros p v Hp Hlp Hv. rewrite Hlab in Hlp.
          destruct (decide (lab (<[i := k]> labels) v = noise)) as [Hvn | Hvn]; [| by left].
          right. apply elem_of_app.
          destruct (decide (p = i)) as [-> | Hpi].
          - left. apply elem_of_rev, list_elem_of_filter. done.
          - destruct (Hpend p v Hp Hlp Hv) as [Hl | Hl]; [by apply Hnn in Hl|].
            apply elem_of_cons in Hl as [-> | Hl]; [done | by right]. }
        split; [done|]. split; [done|].
        intros x Hx. apply elem_of_app in Hx as [Hx | Hx]; [| by apply Hreach1].
        apply elem_of_rev, list_elem_of_filter in Hx as [_ Hx].
        right. exists i. split; [by apply neighbors_sym|]. split; [done|].
        rewrite Hlab. by destruct (decide (i = i)).
      * unfold potential. rewrite length_app, length_rev. simpl.
        pose proof (length_filter (fun v => lab (<[i := k]> labels) v = noise) (nbrs i)) as Hf.
        pose proof (neighbors_length i) as Hn. nia.
    + split; [| split; [done | split; [done|]]].
      * split; [done|]. split; [done|]. split; [done|]. split; [done|]. split; [done|].
        split.
        { intros p v Hp Hlp Hv. rewrite Hlab in Hlp.
          destruct (decide (p = i)) as [-> | Hpi]; [congruence|].
          destruct (Hpend p v Hp Hlp Hv) as [Hl | Hl]; [left; by apply Hnn|].
          apply elem_of_cons in Hl as [-> | Hl]; [by left | by right]. }
        split; [done|]. split; [done|]. done.
      * unfold potential. simpl. nia.
  - injection Hvisit as <- <-.
    split; [| split; [done | split; [done|]]].
    + split; [done|]. split; [done|]. split; [done|]. split; [done|]. split; [done|].
      split.
      { intros p v Hp Hlp Hv. destruct (Hpend p v Hp Hlp Hv) as [Hl | Hl]; [by left|].
        apply elem_of_cons in Hl as [-> | Hl]; [by left | by right]. }
      split; [done|]. split; [done|].
      intros x Hx. apply Hreach. by apply list_elem_of_further.
    + unfold potential. simpl. lia.
Qed.

Lemma extends_trans (a b c : list Z) : extends a b -> extends b c -> extends a c.
Proof.
  intros Hab Hbc u Hu. rewrite <- (Hab u Hu). apply Hbc. by rewrite (Hab u Hu).
Qed.

(** A walk ends when it is given as many passes as its measure, and leaves
    the state between two walks with one more cluster. *)
Lemma dbscan_expand_total (fuel : nat) : forall (k : Z) (labels : list Z) (i : nat)
    (stack : list nat),
  expanding n core_samples neighborhoods k labels (i :: stack) ->
  potential n labels (i :: stack) <= fuel ->
  exists labels',
    dbscan_expand fuel core_samples neighborhoods k i stack labels = Some labels'
    /\ between_walks n core_samples neighborhoods (k + 1) labels'
    /\ extends labels labels'
    /\ lab labels' i <> noise.
Proof.
  induction fuel as [| fuel IH]; intros k labels i stack Hexp Hpot.
  - unfold potential in Hpot. simpl in Hpot. lia.
  - rewrite dbscan_expand_unfold.
    destruct (dbscan_visit core_samples neighborhoods k i stack labels)
      as [labels1 stack1] eqn:Hvisit.
    destruct (visit_step _ _ _ _ _ _ Hexp Hvisit) as (Hexp1 & Hext & Hi & Hlt).
    destruct stack1 as [| top stack2].
    + exists labels1. split; [done|]. split; [by apply expanding_done|]. done.
    + destruct (IH k labels1 top stack2 Hexp1) as (labels' & Hrun & Hbw & Hext' & _);
        [lia|].
      exists labels'. split; [done|]. split; [done|].
      split; [by apply (extends_trans _ labels1)|].
      by rewrite (Hext' i Hi).
Qed.

Lemma potential_seed (labels : list Z) (i : nat) :
  potential n labels [i] <= dbscan_fuel n.
Proof.
  unfold potential, dbscan_fuel, unlabelled. simpl.
  pose proof (length_filter (fun u => lab labels u = noise) (seq 0 n)) as Hf.
  rewrite length_seq in Hf. nia.
Qed.

(** The loop over the samples ends, and every core sample it has passed
    carries a label. *)
Lemma dbscan_seeds_total (seeds : list nat) : forall (k : Z) (labels : list Z),
  between_walks n core_samples neighborhoods k labels ->
  Forall (fun v => v < n) seeds ->
  exists labels' k',
    dbscan_seeds (dbscan_fuel n) core_samples neighborhoods seeds k labels = Some labels'
    /\ between_walks n core_samples neighborhoods k' labels'
    /\ extends labels labels'
    /\ forall c, c ∈ seeds -> is_core c = true -> lab labels' c <> noise.
Proof.
  induction seeds as [| i seeds IH]; intros k labels Hbw Hseeds.
  - exists labels, k. split; [done|]. split; [done|]. split; [done|].
    intros c Hc. by apply elem_of_nil in Hc.
  - apply Forall_cons in Hseeds as [Hi Hseeds]. cbn [dbscan_seeds].
    destruct (negb (lab labels i =? noise)%Z || negb (is_core i)) eqn:Hskip.
    + destruct (IH k labels Hbw Hseeds) as (labels' & k' & Hrun & Hbw' & Hext & Hcores).
      exists labels', k'. split; [done|]. split; [done|]. split; [done|].
      intros c Hc Hcore. apply elem_of_cons in Hc as [-> | Hc]; [| by apply Hcores].
      rewrite Hcore in Hskip. simpl in Hskip. rewrite orb_false_r in Hskip.
      apply negb_true_iff, Z.eqb_neq in Hskip. by rewrite (Hext i Hskip).
    + apply orb_false_iff in Hskip as [Hnoise Hcore].
      apply negb_false_iff in Hcore.
      destruct (dbscan_expand_total (dbscan_fuel n) k labels i [])
        as (labels1 & Hrun1 & Hbw1 & Hext1 & Hi1);
        [by apply between_walks_start | apply potential_seed |].
      rewrite Hrun1. simpl.
      destruct (IH (k + 1)%Z labels1 Hbw1 Hseeds)
        as (labels' & k' & Hrun & Hbw' & Hext & Hcores).
      exists labels', k'. split; [done|]. split; [done|].
      split; [by apply (extends_trans _ labels1)|].
      intros c Hc Hc'. apply elem_of_cons in Hc as [-> | Hc]; [| by apply Hcores].
      by rewrite (Hext i Hi1).
Qed.

Lemma label_of_replicate (m : nat) (u : nat) : lab (replicate m noise) u = noise.
Proof.
  unfold label_of. destruct (replicate m noise !! u) as [x |] eqn:Hx; [| done].
  by apply lookup_replicate in Hx as [-> _].
Qed.

Lemma between_walks_initial :
  between_walks n core_samples neighborhoods 0 (replicate n noise).
Proof.
  split; [by rewrite length_replicate|]. split; [done|].
  split. { intros u. left. apply label_of_replicate. }
  split. { intros p v _ Hp. by rewrite label_of_replicate in Hp. }
  split. { intros p v _ _ _ Hp. by rewrite label_of_replicate in Hp. }
  intros u Hu. by rewrite label_of_replicate in Hu.
Qed.

(** [dbscan_inner] returns: the labels it leaves satisfy the invariant, and
    every core sample is in a cluster. *)
Lemma dbscan_inner_total :
  exists labels k,
    dbscan_inner core_samples neighborhoods (replicate n noise) = Some labels
    /\ between_walks n core_samples neighborhoods k labels
    /\ forall c, c < n -> is_core c = true -> lab labels c <> noise.
Proof.
  destruct (dbscan_seeds_total (seq 0 n) 0 (replicate n noise) between_walks_initial)
    as (labels & k & Hrun & Hbw & _ & Hcores).
  { apply Forall_forall. intros v Hv. apply elem_of_seq in Hv. lia. }
  exists labels, k. split.
  - unfold dbscan_inner. by rewrite length_replicate.
  - split; [done|]. intros c Hc. apply Hcores, elem_of_seq. lia.
Qed.

(** *** The size of a cluster *)

Variable min_samples : Z.

Hypothesis neighbors_refl : forall p, p < n -> p ∈ neighbors_of neighborhoods p.
Hypothesis neighbors_NoDup : forall p, NoDup (neighbors_of neighborhoods p).
Hypothesis core_spec : forall p,
  is_core_at core_samples p = (min_samples <=? len (neighbors_of neighborhoods p))%Z.

(** With [min_samples <= 3] a sample with a neighbour in one cluster and a
    neighbour in another is a core sample itself: no border sample is taken
    from the cluster of a core sample that reaches it. *)
Lemma cluster_of_core (k : Z) (labels : list Z) (c v : nat) :
  between_walks n core_samples neighborhoods k labels ->
  (min_samples <= 3)%Z ->
  is_core c = true -> lab labels c <> noise -> v ∈ nbrs c ->
  lab labels v = lab labels c.
Proof.
  intros (Hlen & Hk & Hbelow & Hclosed & Hagree & Hanch) Hmin Hc Hlc Hv.
  assert (Hlv : lab labels v <> noise).
  { apply (Hclosed c v Hc Hlc); [| done]. destruct (Hbelow c); [done | lia]. }
  destruct (is_core v) eqn:Hcv; [symmetry; by apply Hagree|].
  destruct (decide (lab labels v = lab labels c)) as [| Hne]; [done|].
  destruct (Hanch v Hlv) as [Hcore | (c1 & Hc1 & Hcc1 & Hlc1)]; [congruence|].
  assert (Hthree : [v; c; c1] ⊆+ nbrs v).
  { apply NoDup_submseteq.
    - repeat constructor; rewrite ?elem_of_cons, ?elem_of_nil; intros H;
        repeat destruct H as [H | H]; try done; congruence.
    - intros x Hx. rewrite !elem_of_cons, elem_of_nil in Hx.
      destruct Hx as [-> | [-> | [-> | []]]]; [| by apply neighbors_sym | done].
      apply neighbors_refl. by apply (neighbors_bound c). }
  apply submseteq_length in Hthree. simpl in Hthree.
  rewrite core_spec in Hcv. apply Z.leb_gt in Hcv. unfold len in Hcv. lia.
Qed.

(** With [min_samples <= 3] every cluster has at least [min_samples]
    members. *)
Lemma cluster_size (k : Z) (labels : list Z) (u : nat) :
  between_walks n core_samples neighborhoods k labels ->
  (min_samples <= 3)%Z ->
  lab labels u <> noise ->
  (min_samples <= len (np_where labels (lab labels u)))%Z.
Proof.
  intros Hbw Hmin Hu.
  assert (exists c, is_core c = true /\ lab labels c = lab labels u) as (c & Hc & Hlc).
  { destruct Hbw as (_ & _ & _ & _ & _ & Hanch).
    destruct (Hanch u Hu) as [? | (c & _ & ? & ?)]; eauto. }
  assert (Hsub : nbrs c ⊆+ np_where labels (lab labels u)).
  { apply NoDup_submseteq; [apply neighbors_NoDup|].
    intros v Hv. apply list_elem_of_filter. split.
    - rewrite <- Hlc. apply (cluster_of_core k); [done | done | done | congruence | done].
    - destruct Hbw as (Hlen & _). rewrite Hlen. apply elem_of_seq.
      pose proof (neighbors_bound c v Hv). lia. }
  apply submseteq_length in Hsub.
  pose proof (core_spec c) as Hcore. rewrite Hc in Hcore.
  symmetry in Hcore. apply Z.leb_le in Hcore. unfold len in *. lia.
Qed.

End Walk.

(** *** The neighbourhoods of [radius_neighbors] *)

Lemma lookup_map {A B : Type} (f : A -> B) (l : list A) (i : nat) :
  map f l !! i = f <$> l !! i.
Proof. revert i. induction l as [| a l IH]; intros [| i]; simpl; auto. Qed.

Section Radius.

Variable n : nat.
Variable near : nat -> nat -> bool.

Hypothesis near_sym : forall i j, near i j = near j i.
Hypothesis near_refl : forall i, i < n -> near i i = true.

Lemma neighbors_of_radius (p : nat) :
  neighbors_of (radius_neighbors n near) p
  = if decide (p < n) then filter (fun j => near p j) (seq 0 n) else [].
Proof.
  unfold neighbors_of, radius_neighbors. rewrite lookup_map.
  destruct (decide (p < n)) as [Hp | Hp].
  - by rewrite lookup_seq_lt.
  - by rewrite lookup_seq_ge by lia.
Qed.

Lemma radius_neighbors_elem (p v : nat) :
  v ∈ neighbors_of (radius_neighbors n near) p <-> p < n /\ v < n /\ near p v = true.
Proof.
  rewrite neighbors_of_radius. destruct (decide (p < n)) as [Hp | Hp].
  - rewrite list_elem_of_filter, elem_of_seq, Is_true_true. intuition lia.
  - rewrite elem_of_nil. intuition.
Qed.

Lemma radius_neighbors_sym (p v : nat) :
  v ∈ neighbors_of (radius_neighbors n near) p ->
  p ∈ neighbors_of (radius_neighbors n near) v.
Proof. rewrite !radius_neighbors_elem, (near_sym v p). intuition. Qed.

Lemma radius_neighbors_bound (p v : nat) :
  v ∈ neighbors_of (radius_neighbors n near) p -> v < n.
Proof. rewrite radius_neighbors_elem. intuition. Qed.

Lemma radius_neighbors_length (p : nat) :
  length (neighbors_of (radius_neighbors n near) p) <= n.
Proof.
  rewrite neighbors_of_radius. destruct (decide (p < n)); [| simpl; lia].
  etransitivity; [apply length_filter|]. by rewrite length_seq.
Qed.

Lemma radius_neighbors_refl (p : nat) :
  p < n -> p ∈ neighbors_of (radius_neighbors n near) p.
Proof. intros Hp. apply radius_neighbors_elem. auto. Qed.

Lemma radius_neighbors_NoDup (p : nat) :
  NoDup (neighbors_of (radius_neighbors n near) p).
Proof.
  rewrite neighbors_of_radius. destruct (decide (p < n)); [| constructor].
  apply NoDup_filter, NoDup_seq.
Qed.

Lemma core_samples_spec (min_samples : Z) (p : nat) :
  (1 <= min_samples)%Z ->
  is_core_at (map (fun nb => (min_samples <=? len nb)%Z) (radius_neighbors n near)) p
  = (min_samples <=? len (neighbors_of (radius_neighbors n near) p))%Z.
Proof.
  intros Hmin. unfold is_core_at, neighbors_of. rewrite lookup_map.
  destruct (radius_neighbors n near !! p) as [nb |]; simpl; [done|].
  symmetry. apply Z.leb_gt. unfold len. simpl. lia.
Qed.

(** The clustering loop on the neighbourhoods of a symmetric, reflexive
    relation returns labels that satisfy the invariant. *)
Lemma dbscan_inner_radius (min_samples : Z) :
  (1 <= min_samples)%Z ->
  let neighborhoods := radius_neighbors n near in
  let core_samples := map (fun nb => (min_samples <=? len nb)%Z) neighborhoods in
  exists labels k,
    dbscan_inner core_samples neighborhoods (replicate n noise) = Some labels
    /\ between_walks n core_samples neighborhoods k labels
    /\ (forall c, c < n -> is_core_at core_samples c = true -> label_of labels c <> noise)
    /\ ((min_samples <= 3)%Z -> forall u, label_of labels u <> noise ->
          (min_samples <= len (np_where labels (label_of labels u)))%Z).
Proof.
  intros Hmin neighborhoods core_samples.
  destruct (dbscan_inner_total n core_samples neighborhoods
              radius_neighbors_sym radius_neighbors_bound radius_neighbors_length)
    as (labels & k & Hrun & Hbw & Hcores).
  exists labels, k. split; [done|]. split; [done|]. split; [done|].
  intros Hle u Hu.
  apply (cluster_size n core_samples neighborhoods
           radius_neighbors_sym radius_neighbors_bound min_samples
           radius_neighbors_refl radius_neighbors_NoDup
           (fun p => core_samples_spec min_samples p Hmin) k labels u Hbw Hle Hu).
Qed.

End Radius.

(** *** The distance test of [DBSCAN] *)

Lemma sq_distance_sym (x : list Q) : forall (y ssq : list Q),
  (sq_distance x y ssq == sq_distance y x ssq)%Q.
Proof.
  induction x as [| a x IH]; intros [| b y] [| s ssq]; simpl; try reflexivity.
  apply Qplus_comp; [| apply IH].
  unfold Qdiv. apply Qmult_comp; [ring | reflexivity].
Qed.

Lemma sq_distance_refl (x : list Q) : forall (ssq : list Q),
  (sq_distance x x ssq == 0)%Q.
Proof.
  induction x as [| a x IH]; intros [| s ssq]; simpl; try reflexivity.
  rewrite IH. unfold Qdiv. ring.
Qed.

Lemma within_sym (eps : Q) (X : Scaled) (i j : nat) :
  within eps X i j = within eps X j i.
Proof.
  unfold within.
  destruct (centered X !! i) as [x |], (centered X !! j) as [y |]; try done.
  apply Qleb_comp; [apply sq_distance_sym | reflexivity].
Qed.

Lemma within_same (eps : Q) (X : Scaled) (i j : nat) (x : list Q) :
  centered X !! i = Some x -> centered X !! j = Some x -> within eps X i j = true.
Proof.
  intros Hi Hj. unfold within. rewrite Hi, Hj.
  apply Qle_bool_iff. rewrite sq_distance_refl.
  destruct eps as [p q]. unfold Qle, Qmult. simpl. nia.
Qed.

Lemma within_refl (eps : Q) (X : Scaled) (i : nat) :
  i < length (centered X) -> within eps X i i = true.
Proof.
  intros Hi. destruct (lookup_lt_is_Some_2 (centered X) i Hi) as [x Hx].
  by apply (within_same eps X i i x).
Qed.

(** [fit_predict] returns labels for every [min_samples >= 1]: the walk
    never runs out of passes.  Every core sample is in a cluster, and with
    [min_samples <= 3] every cluster has at least [min_samples] members. *)
Lemma DBSCAN_fit_predict_ok (eps : Q) (min_samples : Z) (X : Scaled) :
  (1 <= min_samples)%Z ->
  let n := length (centered X) in
  let neighborhoods := radius_neighbors n (within eps X) in
  let core_samples := map (fun nb => (min_samples <=? len nb)%Z) neighborhoods in
  exists labels k,
    DBSCAN_fit_predict eps min_samples X = Ok labels
    /\ between_walks n core_samples neighborhoods k labels
    /\ (forall c, c < n -> is_core_at core_samples c = true -> label_of labels c <> noise)
    /\ ((min_samples <= 3)%Z -> forall u, label_of labels u <> noise ->
          (min_samples <= len (np_where labels (label_of labels u)))%Z).
Proof.
  intros Hmin n neighborhoods core_samples.
  destruct (dbscan_inner_radius n (within eps X) (within_sym eps X)
              (within_refl eps X) min_samples Hmin)
    as (labels & k & Hrun & Hrest).
  exists labels, k. split; [| exact Hrest].
  unfold DBSCAN_fit_predict.
  destruct (Z.ltb_spec min_samples 1) as [? | _]; [lia|].
  cbv zeta. subst core_samples neighborhoods n. cbv zeta in Hrun.
  by rewrite Hrun.
Qed.

(** ** The size of a campaign (C4) *)

Lemma mapM_length {A B : Type} (f : A -> Res B) (l : list A) : forall r,
  mapM f l = Ok r -> length r = length l.
Proof.
  induction l as [| a l IH]; intros r H; simpl in H.
  - injection H as <-. done.
  - apply bind_Ok in H as (b & _ & H). apply bind_Ok in H as (k & Hk & H).
    injection H as <-. simpl. f_equal. by apply IH.
Qed.

Lemma label_set_elem (labels : list Z) (id : Z) :
  id ∈ label_set labels -> exists u, label_of labels u = id.
Proof.
  unfold label_set. rewrite merge_sort_Permutation, elem_of_remove_dups. intros H.
  apply list_elem_of_lookup_1 in H as [u Hu]. exists u. unfold label_of. by rewrite Hu.
Qed.

(** A campaign that the loop over the labels adds has the members of one
    cluster. *)
Lemma form_campaigns_sizes (history : list Attack.t) (ids : list string)
    (labels : list Z) : forall (cluster_ids : list Z) (self : CampaignDetector)
    (d campaigns : list Campaign.t) (self' : CampaignDetector),
  form_campaigns self history ids labels cluster_ids d = (Ok campaigns, self') ->
  forall c, c ∈ campaigns ->
    c ∈ d
    \/ exists id, id ∈ cluster_ids /\ id <> noise
         /\ len (Campaign.attack_ids c) = len (np_where labels id)
         /\ Campaign.num_attacks c = len (np_where labels id).
Proof.
  induction cluster_ids as [| id rest IH]; intros self d campaigns self' H c Hc;
    cbn [form_campaigns] in H.
  - injection H as <- <-. by left.
  - destruct (Z.eqb_spec id noise) as [Hn | Hn].
    + destruct (IH _ _ _ _ H c Hc) as [? | (id' & ? & ?)]; [by left|].
      right. exists id'. split; [by apply list_elem_of_further | done].
    + destruct (mapM (getitem history) (np_where labels id)) as [attacks | e] eqn:Ha;
        [| discriminate H].
      destruct (mapM (getitem ids) (np_where labels id)) as [ids' | e] eqn:Hi;
        [| discriminate H].
      cbn [mbind Res_bind] in H.
      destruct (_create_campaign self attacks ids') as [[c1 s1] | e] eqn:Hc1;
        [| discriminate H].
      apply create_campaign_attribution in Hc1 as (ts & diffs & _ & _ & Hnum & Hids & _).
      destruct (IH _ _ _ _ H c Hc) as [Hd | (id' & ? & ?)].
      * apply elem_of_app in Hd as [Hd | Hd]; [by left|].
        apply list_elem_of_singleton in Hd as ->. right. exists id.
        split; [apply list_elem_of_here|]. split; [done|].
        rewrite Hids, Hnum. unfold len.
        by rewrite (mapM_length _ _ _ Ha), (mapM_length _ _ _ Hi).
      * right. exists id'. split; [by apply list_elem_of_further | done].
Qed.

Lemma sklearn_cluster_sizes (X : matrix) (min_samples : Z) (labels : list Z) :
  sklearn_cluster X min_samples = Ok labels ->
  (min_samples <= 3)%Z ->
  forall u, label_of labels u <> noise ->
    (min_samples <= len (np_where labels (label_of labels u)))%Z.
Proof.
  unfold sklearn_cluster. intros H Hmin.
  apply bind_Ok in H as (X_scaled & _ & H).
  destruct (Z.lt_ge_cases min_samples 1) as [Hlt | Hge].
  - unfold DBSCAN_fit_predict in H. apply Z.ltb_lt in Hlt. rewrite Hlt in H.
    discriminate H.
  - destruct (DBSCAN_fit_predict_ok 0.5 min_samples X_scaled Hge)
      as (labels' & k & Hrun & _ & _ & Hsize).
    rewrite Hrun in H. injection H as <-. by apply Hsize.
Qed.

(** C4 (amended).  With [min_cluster_size <= 3], the value the route uses,
    every campaign that a detection run returns has at least
    [min_cluster_size] member event ids, and records at least that many
    attacks.  (With a larger [min_cluster_size] a border sample can be taken
    by the cluster found first, and a later cluster is left with fewer
    members.) *)
Theorem campaigns_reach_min_size_up_to_three (self : CampaignDetector)
    (batch : list Attack.t) (min_cluster_size : Z) :
  (min_cluster_size <= 3)%Z ->
  match (detect_campaigns self batch min_cluster_size).1 with
  | Ok campaigns =>
      Forall (fun c => (min_cluster_size <= len (Campaign.attack_ids c))%Z
                       /\ (min_cluster_size <= Campaign.num_attacks c)%Z) campaigns
  | Raise _ => True
  end.
Proof.
  intros Hmin. unfold detect_campaigns, detect_campaigns_with.
  destruct (len batch <? min_cluster_size)%Z; [by constructor|].
  destruct (mapM feature_vector batch) as [X | e]; [| done].
  destruct (sklearn_cluster X min_cluster_size) as [labels | e] eqn:Hcl; [| done].
  destruct (form_campaigns self batch (map Attack.id batch) labels (label_set labels) [])
    as [[campaigns | e] self'] eqn:Hform; [| done].
  cbn [fst]. apply Forall_forall. intros c Hc.
  destruct (form_campaigns_sizes _ _ _ _ _ _ _ _ Hform c Hc)
    as [Hd | (id & Hid & Hn & Hlen & Hnum)]; [by apply elem_of_nil in Hd|].
  apply label_set_elem in Hid as [u Hu].
  rewrite Hlen, Hnum, <- Hu.
  split; apply (sklearn_cluster_sizes X min_cluster_size labels Hcl Hmin u); congruence.
Qed.

Lemma campaigns_reach_min_size_up_to_three_witness :
  (3 <= 3)%Z
  /\ match (detect_campaigns new_detector five_ddos 3).1 with
     | Ok campaigns =>
         Forall (fun c => (3 <= len (Campaign.attack_ids c))%Z
                          /\ (3 <= Campaign.num_attacks c)%Z) campaigns
     | Raise _ => True
     end.
Proof.
  split; [lia|].
  apply (campaigns_reach_min_size_up_to_three new_detector five_ddos 3). lia.
Defined.

(** With [min_cluster_size = 4] the nine events of [border_batch] give two
    campaigns, and the second has three members: the event at latitude 9 is
    within reach of both core samples and goes to the cluster found first. *)
Lemma border_sample_leaves_small_campaign :
  labels_of_batch border_batch 4 = Ok [-1; 0; 0; 0; 0; 1; 1; 1; -1]%Z
  /\ membership (detect_campaigns new_detector border_batch 4).1
     = Ok [["attack_7002_1704103200"; "attack_7003_1704103200";
            "attack_7004_1704103200"; "attack_7005_1704103200"];
           ["attack_7006_1704103200"; "attack_7007_1704103200";
            "attack_7008_1704103200"]].
Proof. split; vm_compute; reflexivity. Qed.

(** ** A batch of identical feature vectors (C3) *)

Lemma filter_all {A : Type} (P : A -> Prop) `{!forall x, Decision (P x)} (l : list A) :
  (forall x, x ∈ l -> P x) -> filter P l = l.
Proof.
  induction l as [| a l IH]; intros Hall; [done|].
  rewrite filter_cons, decide_True by (apply Hall, list_elem_of_here).
  f_equal. apply IH. intros x Hx. by apply Hall, list_elem_of_further.
Qed.

Lemma map_replicate {A B : Type} (f : A -> B) (m : nat) (x : A) :
  map f (replicate m x) = replicate m (f x).
Proof. induction m as [| m IH]; simpl; [done | by rewrite IH]. Qed.

Lemma labels_constant (m : nat) (labels : list Z) (l : Z) :
  length labels = m -> (forall c, c < m -> label_of labels c = l) ->
  labels = replicate m l.
Proof.
  intros Hlen Hall. apply list_eq. intros i.
  destruct (decide (i < m)) as [Hi | Hi].
  - rewrite lookup_replicate_2 by done.
    destruct (lookup_lt_is_Some_2 labels i) as [x Hx]; [lia|].
    specialize (Hall i Hi). unfold label_of in Hall. rewrite Hx in Hall.
    simpl in Hall. by rewrite Hx, Hall.
  - rewrite lookup_ge_None_2 by lia. symmetry. apply lookup_replicate_None. lia.
Qed.

(** When every sample is within reach of every other and there are at least
    [min_samples] of them, the loop puts all of them in one cluster. *)
Lemma dbscan_all_near (n : nat) (near : nat -> nat -> bool) (min_samples : Z) :
  (forall i j, near i j = near j i) ->
  (forall i j, i < n -> j < n -> near i j = true) ->
  (1 <= min_samples <= Z.of_nat n)%Z ->
  let neighborhoods := radius_neighbors n near in
  let core_samples := map (fun nb => (min_samples <=? len nb)%Z) neighborhoods in
  exists l, l <> noise
    /\ dbscan_inner core_samples neighborhoods (replicate n noise) = Some (replicate n l).
Proof.
  intros Hsym Hall Hmin neighborhoods core_samples. subst core_samples neighborhoods.
  assert (Hrefl : forall i, i < n -> near i i = true) by auto.
  destruct (dbscan_inner_radius n near Hsym Hrefl min_samples) as
    (labels & k & Hrun & Hbw & Hcores & _); [lia|].
  cbv zeta in Hrun, Hbw, Hcores.
  assert (Hnb : forall c, c < n -> neighbors_of (radius_neighbors n near) c = seq 0 n).
  { intros c Hc. rewrite neighbors_of_radius, decide_True by done.
    apply filter_all. intros x Hx. apply elem_of_seq in Hx. apply Is_true_true, Hall; lia. }
  assert (Hcore : forall c, c < n ->
            is_core_at (map (fun nb => (min_samples <=? len nb)%Z) (radius_neighbors n near)) c
            = true).
  { intros c Hc. rewrite core_samples_spec by lia.
    rewrite (Hnb c Hc). apply Z.leb_le. unfold len. rewrite length_seq. lia. }
  assert (H0 : 0 < n) by lia.
  exists (label_of labels 0). split; [by apply Hcores; auto|].
  rewrite Hrun. f_equal.
  destruct Hbw as (Hlen & _ & _ & _ & Hagree & _).
  apply labels_constant; [done|]. intros c Hc.
  apply Hagree; auto.
  rewrite (Hnb c Hc). apply elem_of_seq. lia.
Qed.

Lemma StandardScaler_centered (X : matrix) :
  X <> [] ->
  exists S m, StandardScaler_fit_transform X = Ok S
    /\ centered S = map (fun row => zip_with Qminus row m) X.
Proof. intros HX. destruct X as [| row X]; [done|]. eexists _, _. split; reflexivity. Qed.

(** The two library calls on [n >= min_samples >= 1] identical rows: every
    row gets the label of one cluster. *)
Lemma sklearn_cluster_identical (n : nat) (row : list Q) (min_samples : Z) :
  (1 <= min_samples <= Z.of_nat n)%Z ->
  exists l, l <> noise
    /\ sklearn_cluster (replicate n row) min_samples = Ok (replicate n l).
Proof.
  intros Hmin.
  destruct (StandardScaler_centered (replicate n row)) as (S & m & Hfit & Hcentered).
  { destruct n; [lia | done]. }
  rewrite map_replicate in Hcentered.
  destruct (dbscan_all_near n (within 0.5 S) min_samples) as (l & Hl & Hrun).
  - apply within_sym.
  - intros i j Hi Hj. apply (within_same _ _ _ _ (zip_with Qminus row m));
      rewrite Hcentered; by apply lookup_replicate_2.
  - done.
  - exists l. split; [done|].
    unfold sklearn_cluster. rewrite Hfit. cbn [mbind Res_bind].
    unfold DBSCAN_fit_predict.
    destruct (Z.ltb_spec min_samples 1) as [? | _]; [lia|].
    rewrite Hcentered, length_replicate. cbv zeta in Hrun. by rewrite Hrun.
Qed.

Lemma label_set_replicate (m : nat) (l : Z) :
  0 < m -> label_set (replicate m l) = [l].
Proof.
  intros Hm. unfold label_set.
  assert (Hdups : remove_dups (replicate m l) = [l]).
  { destruct m as [| m]; [lia|]. clear Hm. induction m as [| m IH]; [done|].
    change (replicate (S (S m)) l) with (l :: replicate (S m) l).
    cbn [remove_dups].
    match goal with
    | |- context [decide_rel ?R ?a ?b] => destruct (decide_rel R a b) as [Hin | Hnin]
    end; [exact IH | exfalso; apply Hnin, list_elem_of_here]. }
  by rewrite Hdups.
Qed.

Lemma np_where_replicate (m : nat) (l : Z) :
  np_where (replicate m l) l = seq 0 m.
Proof.
  unfold np_where. rewrite length_replicate. apply filter_all.
  intros x Hx. apply elem_of_seq in Hx. unfold label_of.
  by rewrite lookup_replicate_2 by lia.
Qed.

Lemma mapM_getitem_seq {A : Type} (l : list A) : forall (pre : list A),
  mapM (getitem (pre ++ l)) (seq (length pre) (length l)) = Ok l.
Proof.
  induction l as [| a l IH]; intros pre; [done|].
  assert (Hhead : getitem (pre ++ a :: l) (length pre) = Ok a).
  { unfold getitem. rewrite lookup_app_r by lia. by rewrite Nat.sub_diag. }
  change (seq (length pre) (length (a :: l)))
    with (length pre :: seq (S (length pre)) (length l)).
  change (mapM (getitem (pre ++ a :: l)) (length pre :: seq (S (length pre)) (length l)))
    with (y ← getitem (pre ++ a :: l) (length pre);
          k ← mapM (getitem (pre ++ a :: l)) (seq (S (length pre)) (length l));
          mret (y :: k)).
  rewrite Hhead. cbn [mbind Res_bind].
  specialize (IH (pre ++ [a])). rewrite <- app_assoc, length_app in IH.
  simpl in IH. rewrite Nat.add_1_r in IH. by rewrite IH.
Qed.

Lemma mapM_getitem_all {A : Type} (l : list A) :
  mapM (getitem l) (seq 0 (length l)) = Ok l.
Proof. apply (mapM_getitem_seq l []). Qed.

Lemma form_campaigns_one_cluster (self : CampaignDetector) (batch : list Attack.t)
    (ids : list string) (l : Z) (m : nat) :
  l <> noise -> length batch = m -> length ids = m ->
  form_campaigns self batch ids (replicate m l) [l] []
  = match _create_campaign self batch ids with
    | Ok (c, self1) =>
        (Ok [c],
         foldl (assign_campaign (Campaign.campaign_id c)) self1 (Campaign.attack_ids c))
    | Raise e => (Raise e, self)
    end.
Proof.
  intros Hl Hbatch Hids. cbn [form_campaigns].
  destruct (Z.eqb_spec l noise) as [? | _]; [done|].
  assert (Ha : mapM (getitem batch) (seq 0 m) = Ok batch)
    by (rewrite <- Hbatch; apply mapM_getitem_all).
  assert (Hi : mapM (getitem ids) (seq 0 m) = Ok ids)
    by (rewrite <- Hids; apply mapM_getitem_all).
  rewrite np_where_replicate, Ha, Hi. cbn [mbind Res_bind].
  by destruct (_create_campaign self batch ids) as [[c self1] | e].
Qed.

(** C3 (amended).  A batch of at least [min_cluster_size >= 1] events whose
    feature vectors are all identical is one cluster: the detection run
    does not return the empty list.  It returns exactly one campaign, whose
    members are all the events of the batch, or it fails with the exception
    that building this campaign raises. *)
Theorem identical_batch_one_campaign (self : CampaignDetector)
    (batch : list Attack.t) (min_cluster_size : Z) (row : list Q) :
  mapM feature_vector batch = Ok (replicate (length batch) row) ->
  (1 <= min_cluster_size <= len batch)%Z ->
  match _create_campaign self batch (map Attack.id batch) with
  | Ok (c, _) =>
      (detect_campaigns self batch min_cluster_size).1 = Ok [c]
      /\ Campaign.attack_ids c = map Attack.id batch
      /\ Campaign.num_attacks c = len batch
  | Raise e => (detect_campaigns self batch min_cluster_size).1 = Raise e
  end.
Proof.
  intros HX Hmin. unfold detect_campaigns, detect_campaigns_with.
  destruct (Z.ltb_spec (len batch) min_cluster_size) as [? | _]; [lia|].
  rewrite HX.
  destruct (sklearn_cluster_identical (length batch) row min_cluster_size)
    as (l & Hl & Hcluster); [unfold len in Hmin; lia|].
  rewrite Hcluster, label_set_replicate by (unfold len in Hmin; lia).
  rewrite form_campaigns_one_cluster by (by rewrite ?length_map).
  destruct (_create_campaign self batch (map Attack.id batch)) as [[c self1] | e] eqn:Hc;
    [| done].
  apply create_campaign_attribution in Hc as (ts & diffs & _ & _ & Hnum & Hids & _).
  done.
Qed.

Lemma identical_batch_one_campaign_witness :
  (exists row, mapM feature_vector three_identical = Ok (replicate 3 row))
  /\ (1 <= 3 <= len three_identical)%Z
  /\ match _create_campaign new_detector three_identical (map Attack.id three_identical) with
     | Ok (c, _) =>
         (detect_campaigns new_detector three_identical 3).1 = Ok [c]
         /\ Campaign.attack_ids c = map Attack.id three_identical
         /\ Campaign.num_attacks c = len three_identical
     | Raise e => (detect_campaigns new_detector three_identical 3).1 = Raise e
     end.
Proof.
  assert (Hrow : { row | mapM feature_vector three_identical = Ok (replicate 3 row) }).
  { eexists. vm_compute. reflexivity. }
  destruct Hrow as [row Hrow].
  split; [by exists row|]. split; [by vm_compute|].
  apply (identical_batch_one_campaign new_detector three_identical 3 row Hrow).
  by vm_compute.
Defined.

(** Three events with one feature vector and [min_cluster_size = 3]: every
    dimension has zero variance, all three get the label 0, and the run
    returns one campaign with the three events, not the empty list. *)
Lemma identical_batch_gives_campaign :
  (exists row, mapM feature_vector three_identical = Ok [row; row; row])
  /\ labels_of_batch three_identical 3 = Ok [0; 0; 0]%Z
  /\ membership (detect_campaigns new_detector three_identical 3).1
     = Ok [["attack_6001_1704103200"; "attack_6002_1704103200";
            "attack_6003_1704103200"]].
Proof.
  split; [eexists; vm_compute; reflexivity|].
  split; vm_compute; reflexivity.
Qed.

(** * Further properties of the code *)

(** ** The numeric codes of countries and attack types *)

Lemma dict_get_default_iff {V : Type} (d : list (string * V)) (key : string)
    (default : V) :
  default ∉ map snd d ->
  dict_get d key default = default <-> key ∉ map fst d.
Proof.
  induction d as [| [k v] d IH]; simpl; intros Hd.
  - split; [intros _; apply not_elem_of_nil | done].
  - rewrite not_elem_of_cons in Hd. destruct Hd as [Hv Hd].
    destruct (String.eqb_spec k key) as [-> | Hne].
    + split; [intros ->; done | intros Hk; exfalso; apply Hk, list_elem_of_here].
    + rewrite (IH Hd), not_elem_of_cons.
      split; [intros ?; split; [congruence | done] | by intros [_ ?]].
Qed.

Lemma dict_get_elem {V : Type} (d : list (string * V)) (key : string) (default : V) :
  key ∈ map fst d -> dict_get d key default ∈ map snd d.
Proof.
  induction d as [| [k v] d IH]; simpl; intros Hk.
  - by apply elem_of_nil in Hk.
  - destruct (String.eqb_spec k key) as [-> | Hne]; [apply list_elem_of_here|].
    apply list_elem_of_further, IH.
    by apply elem_of_cons in Hk as [-> | Hk].
Qed.

Lemma dict_get_inj {V : Type} (d : list (string * V)) (a b : string) (default : V) :
  NoDup (map snd d) -> a ∈ map fst d -> b ∈ map fst d ->
  dict_get d a default = dict_get d b default -> a = b.
Proof.
  induction d as [| [k v] d IH]; simpl; intros Hnd Ha Hb.
  - by apply elem_of_nil in Ha.
  - apply NoDup_cons in Hnd as [Hv Hnd].
    destruct (String.eqb_spec k a) as [Hka | Hka], (String.eqb_spec k b) as [Hkb | Hkb].
    + congruence.
    + intros Heq. exfalso. apply Hv. rewrite Heq. apply dict_get_elem.
      by apply elem_of_cons in Hb as [-> | Hb].
    + intros Heq. exfalso. apply Hv. rewrite <- Heq. apply dict_get_elem.
      by apply elem_of_cons in Ha as [-> | Ha].
    + apply IH; [done | |].
      * by apply elem_of_cons in Ha as [-> | Ha].
      * by apply elem_of_cons in Hb as [-> | Hb].
Qed.

Lemma in_table_Z (x : Z) (l : list Z) (lo hi : Z) :
  forallb (fun y => in_range lo y hi) l = true -> x ∈ l -> (lo <= x <= hi)%Z.
Proof.
  intros Hall Hx. rewrite forallb_forall in Hall.
  apply list_elem_of_In, Hall in Hx. unfold in_range in Hx.
  apply andb_prop in Hx as [H1 H2]. apply Z.leb_le in H1, H2. lia.
Qed.

(** A table whose values are nonzero and pairwise distinct: the value of a
    key is the default 0 exactly when the key is absent, and a nonzero
    value determines its key. *)
Lemma dict_get_code (d : list (string * Z)) (a b : string) :
  bool_decide (0%Z ∉ map snd d) = true ->
  bool_decide (NoDup (map snd d)) = true ->
  (dict_get d a 0%Z = 0%Z <-> a ∉ map fst d)
  /\ (dict_get d a 0%Z = dict_get d b 0%Z -> dict_get d a 0%Z <> 0%Z -> a = b).
Proof.
  intros Hd Hnd. apply bool_decide_eq_true in Hd, Hnd.
  split; [by apply dict_get_default_iff|].
  intros Heq Hne.
  assert (Hin : forall c, dict_get d c 0%Z <> 0%Z -> c ∈ map fst d).
  { intros c Hc. destruct (decide (c ∈ map fst d)) as [| Hn]; [done|].
    by apply (dict_get_default_iff d c 0%Z Hd) in Hn. }
  apply (dict_get_inj d a b 0%Z); [done | auto | | done].
  apply Hin. by rewrite <- Heq.
Qed.

(** [_country_to_code]: the code is between 0 and 15; it is 0 exactly for
    the countries that are not in the table; two countries with one nonzero
    code are the same country. *)
Theorem country_code_spec (country other : string) :
  (0 <= _country_to_code country <= 15)%Z
  /\ (_country_to_code country = 0%Z <-> country ∉ map fst country_codes)
  /\ (_country_to_code country = _country_to_code other ->
      _country_to_code country <> 0%Z -> country = other).
Proof.
  unfold _country_to_code. split.
  - apply (in_table_Z _ (map snd country_codes ++ [0%Z])); [done | apply dict_get_range].
  - apply dict_get_code; by vm_compute.
Qed.

(** [_attack_type_to_code]: the code is between 0 and 8; it is 0 exactly for
    the types that are not in the table; two types with one nonzero code are
    the same type. *)
Theorem attack_type_code_spec (attack_type other : string) :
  (0 <= _attack_type_to_code attack_type <= 8)%Z
  /\ (_attack_type_to_code attack_type = 0%Z <-> attack_type ∉ map fst type_codes)
  /\ (_attack_type_to_code attack_type = _attack_type_to_code other ->
      _attack_type_to_code attack_type <> 0%Z -> attack_type = other).
Proof.
  unfold _attack_type_to_code. split.
  - apply (in_table_Z _ (map snd type_codes ++ [0%Z])); [done | apply dict_get_range].
  - apply dict_get_code; by vm_compute.
Qed.

(** ** Rounding and the severity score *)

From Stdlib Require Lqa.

Lemma round_half_even_floor (x : Q) :
  (Qfloor x <= round_half_even x <= Qfloor x + 1)%Z.
Proof.
  unfold round_half_even.
  destruct (x - inject_Z (Qfloor x) ?= 1 # 2)%Q; [destruct (Z.even (Qfloor x)) | |]; lia.
Qed.

Lemma round_half_even_ge (k : Z) (x : Q) :
  (inject_Z k <= x)%Q -> (k <= round_half_even x)%Z.
Proof.
  intros Hx. apply Qfloor_resp_le in Hx. rewrite Qfloor_Z in Hx.
  pose proof (round_half_even_floor x). lia.
Qed.

Lemma round_half_even_le (k : Z) (x : Q) :
  (x <= inject_Z k)%Q -> (round_half_even x <= k)%Z.
Proof.
  intros Hx. pose proof Hx as Hfl. apply Qfloor_resp_le in Hfl. rewrite Qfloor_Z in Hfl.
  pose proof (round_half_even_floor x) as Hr.
  destruct (Z.eq_dec (Qfloor x) k) as [Heq | Hne]; [| lia].
  unfold round_half_even.
  assert (Hlt : (x - inject_Z (Qfloor x) ?= 1 # 2)%Q = Lt).
  { apply (proj1 (Qlt_alt _ _)). rewrite Heq. Lqa.lra. }
  rewrite Hlt. lia.
Qed.

(** [round(x, ndigits)] stays between two integers that enclose [x]. *)
Lemma py_round_bounds (lo hi : Z) (x : Q) (ndigits : nat) :
  (inject_Z lo <= x <= inject_Z hi)%Q ->
  (inject_Z lo <= py_round x ndigits <= inject_Z hi)%Q.
Proof.
  intros [Hlo Hhi]. unfold py_round.
  set (s := (10 ^ Z.of_nat ndigits)%Z).
  assert (Hs : (0 < s)%Z) by (apply Z.pow_pos_nonneg; lia).
  assert (Hsq : (inject_Z 0 < inject_Z s)%Q) by (rewrite <- Zlt_Qlt; exact Hs).
  change (inject_Z 0) with 0%Q in Hsq.
  split.
  - apply Qle_shift_div_l; [exact Hsq|].
    rewrite <- inject_Z_mult, <- Zle_Qle. apply round_half_even_ge.
    rewrite inject_Z_mult. apply Qmult_le_compat_r; [exact Hlo | by apply Qlt_le_weak].
  - apply Qle_shift_div_r; [exact Hsq|].
    rewrite <- inject_Z_mult, <- Zle_Qle. apply round_half_even_le.
    rewrite inject_Z_mult. apply Qmult_le_compat_r; [exact Hhi | by apply Qlt_le_weak].
Qed.

Lemma Qsum_bounds (lo hi : Q) (l : list Q) :
  Forall (fun x => lo <= x <= hi)%Q l ->
  (inject_Z (len l) * lo <= Qsum l <= inject_Z (len l) * hi)%Q.
Proof.
  induction 1 as [| x l [Hx1 Hx2] _ IH]; unfold len; simpl length.
  - change (inject_Z (Z.of_nat 0)) with 0%Q. change (Qsum []) with 0%Q. Lqa.lra.
  - rewrite Nat2Z.inj_succ. unfold Z.succ. rewrite inject_Z_plus.
    unfold len in IH. change (Qsum (x :: l)) with (x + Qsum l)%Q.
    change (inject_Z 1) with 1%Q.
    revert IH. generalize (inject_Z (Z.of_nat (length l))) (Qsum l). intros n s IH.
    Lqa.lra.
Qed.

Lemma np_mean_bounds (lo hi : Q) (l : list Q) :
  l <> [] -> Forall (fun x => lo <= x <= hi)%Q l ->
  (lo <= np_mean l <= hi)%Q.
Proof.
  intros Hne Hall. destruct (Qsum_bounds lo hi l Hall) as [H1 H2].
  assert (Hn : (inject_Z 0 < inject_Z (len l))%Q).
  { rewrite <- Zlt_Qlt. unfold len. destruct l; [done | simpl; lia]. }
  change (inject_Z 0) with 0%Q in Hn.
  unfold np_mean. split.
  - apply Qle_shift_div_l; [exact Hn|]. by rewrite Qmult_comm.
  - apply Qle_shift_div_r; [exact Hn|]. by rewrite Qmult_comm.
Qed.
